(** * Lane boundary tracking: a shallow embedding of advanced_lane_lines.ipynb

    The notebook's lane search ([sliding_window], [subsequent_frame]), its
    per-frame driver ([process_image]) and its curvature measurement
    ([calculate_curvature]) are transcribed as Rocq functions.

    Conventions.
    - Python exceptions are values of [exn]; a call that may raise returns a
      [result].
    - A numpy array of pixels is an [ndarray]: a list of rows, each row a
      list of pixels; a pixel of a three-channel array is the list of its
      channel values.  Arrays are rectangular; an array without rows has
      width 0.
    - Integer arithmetic is done in [Z].  [int(a/b)] and [np.int(a/b)] on
      integers truncate, which is [Z.quot].
    - float64 values in the pixel search and in the fitted curves are
      IEEE 754 binary64 numbers, Rocq's primitive floats: every operation
      rounds as numpy's does.  The curvature measurement is idealised over
      the real numbers, extended with infinities and NaN where the notebook
      divides.
    - [np.polyfit] is the numerical least-squares routine of numpy; its
      solver is a parameter of the development.  What it raises is written
      out: [TypeError] on an empty sample or on samples of different
      lengths, [LinAlgError] when every abscissa is zero (the scaled
      Vandermonde matrix then holds NaN and the SVD does not converge). *)

From Stdlib Require Import PrimFloat.
From Stdlib Require FloatOps SpecFloat Uint63.
From Stdlib Require Import ZArith List Bool Lia Reals Lra Psatz.
Import ListNotations.
Local Open Scope Z_scope.

(** ** Exceptions *)

Inductive exn : Set := TypeError | ValueError | IndexError | LinAlgError.

Inductive result (A : Type) : Type :=
| Ok (a : A)
| Raise (e : exn).
Arguments Ok {A} a.
Arguments Raise {A} e.

Definition bind {A B : Type} (r : result A) (k : A -> result B) : result B :=
  match r with
  | Ok a => k a
  | Raise e => Raise e
  end.

Notation "x <- r ;; k" := (bind r (fun x => k))
  (at level 61, r at next level, right associativity).

(** ** The numpy operations the notebook uses *)

Module Np.

Inductive ndarray : Type :=
| Arr2 (rows : list (list Z))
| Arr3 (rows : list (list (list Z))).

(** [a.shape[0]] and [a.shape[1]]. *)
Definition shape0 (a : ndarray) : Z :=
  match a with
  | Arr2 rows => Z.of_nat (length rows)
  | Arr3 rows => Z.of_nat (length rows)
  end.

Definition shape1 (a : ndarray) : Z :=
  match a with
  | Arr2 rows => Z.of_nat (length (hd [] rows))
  | Arr3 rows => Z.of_nat (length (hd [] rows))
  end.

(** [len(a.shape)]. *)
Definition ndim (a : ndarray) : Z :=
  match a with
  | Arr2 _ => 2
  | Arr3 _ => 3
  end.

(** [a[:,:,0]]: too many indices for a two-dimensional array. *)
Definition channel0 (a : ndarray) : result (list (list Z)) :=
  match a with
  | Arr2 _ => Raise IndexError
  | Arr3 rows => Ok (map (map (fun px => hd 0 px)) rows)
  end.

(** A two-dimensional array used as it is. *)
Definition plane (a : ndarray) : list (list Z) :=
  match a with
  | Arr2 rows => rows
  | Arr3 _ => []
  end.

Definition sum (l : list Z) : Z := fold_right Z.add 0 l.

(** [np.sum(rows, axis=0)] for rows of width [w]. *)
Definition sum_axis0 (w : nat) (rows : list (list Z)) : list Z :=
  map (fun x => sum (map (fun r => nth x r 0) rows)) (seq 0 w).

(** [np.argmax]: the first index of the maximum. *)
Fixpoint argmax_from (best : Z) (besti i : nat) (l : list Z) : nat :=
  match l with
  | [] => besti
  | v :: t =>
      if best <? v then argmax_from v i (S i) t
      else argmax_from best besti (S i) t
  end.

Definition argmax (l : list Z) : result Z :=
  match l with
  | [] => Raise ValueError
  | v :: t => Ok (Z.of_nat (argmax_from v 0 1 t))
  end.

Definition enumerate {A : Type} (l : list A) : list (Z * A) :=
  combine (map Z.of_nat (seq 0 (length l))) l.

(** [a.nonzero()] restricted to its first two index arrays, in row-major
    order, as a list of (row, column) pairs.  A three-channel array yields
    one entry per nonzero channel value. *)
Definition nonzero (a : ndarray) : list (Z * Z) :=
  match a with
  | Arr2 rows =>
      flat_map (fun '(y, row) =>
        flat_map (fun '(x, v) => if v =? 0 then [] else [(y, x)])
                 (enumerate row))
        (enumerate rows)
  | Arr3 rows =>
      flat_map (fun '(y, row) =>
        flat_map (fun '(x, px) =>
          flat_map (fun v => if v =? 0 then [] else [(y, x)]) px)
                 (enumerate row))
        (enumerate rows)
  end.

(** [b.nonzero()[0]] for a one-dimensional boolean array. *)
Fixpoint true_inds_from (i : nat) (b : list bool) : list nat :=
  match b with
  | [] => []
  | true :: t => i :: true_inds_from (S i) t
  | false :: t => true_inds_from (S i) t
  end.

Definition true_inds (b : list bool) : list nat := true_inds_from 0 b.

(** [a[inds]] for an integer index array. *)
Definition take (a : list Z) (inds : list nat) : list Z :=
  map (fun i => nth i a 0) inds.

(** [a[b]] for a boolean mask of the same length. *)
Fixpoint compress (b : list bool) (a : list Z) : list Z :=
  match b, a with
  | true :: b', v :: a' => v :: compress b' a'
  | false :: b', _ :: a' => compress b' a'
  | _, _ => []
  end.

(** [np.int(np.mean(a))] for a non-empty integer array. *)
Definition mean_int (a : list Z) : Z :=
  Z.quot (sum a) (Z.of_nat (length a)).

(** [np.linspace(0, n-1, n)]. *)
Definition linspace (n : Z) : list Z :=
  map Z.of_nat (seq 0 (Z.to_nat n)).

End Np.

(** ** Fitted curves *)

(** A float64 value. *)
Definition float64 : Set := PrimFloat.float.
Bind Scope float_scope with float64.

(** An int64 value turned into a float64, as numpy does when an integer
    array meets a float: exact below 2^53 in magnitude, rounded to nearest
    above. *)
Definition Z2F (z : Z) : float64 :=
  if z <? 0 then PrimFloat.opp (PrimFloat.of_uint63 (Uint63.of_Z (- z)))
  else PrimFloat.of_uint63 (Uint63.of_Z z).

(** A fit is the coefficient array [A, B, C] of [x = A*y^2 + B*y + C]; the
    module-level initial value is the empty list. *)
Definition fit : Type := list float64.

Definition getitem (f : fit) (i : nat) : result float64 :=
  match nth_error f i with
  | Some c => Ok c
  | None => Raise IndexError
  end.

(** [c0*(y**2) + c1*y + c2] for an entry [y] of an integer array: the
    square is taken in integers, the rest in float64, from left to right. *)
Definition poly2 (c0 c1 c2 : float64) (y : Z) : float64 :=
  (c0 * Z2F (y * y) + c1 * Z2F y + c2)%float.

(** [c0*y**2 + c1*y + c2] for an entry [y] of a float array. *)
Definition poly2f (c0 c1 c2 y : float64) : float64 :=
  (c0 * (y * y) + c1 * y + c2)%float.

(** ** Lane search *)

(** [range(n)]. *)
Definition range (n : Z) : list Z := map Z.of_nat (seq 0 (Z.to_nat n)).

Definition nwindows : Z := 9.
Definition margin : Z := 100.
Definition minpix : Z := 50.

(** The variables the window loop updates. *)
Record window_state : Type := {
  leftx_current : Z;
  rightx_current : Z;
  left_lane_inds : list (list nat);
  right_lane_inds : list (list nat)
}.

(** The boolean array
    [(nonzeroy >= y_low) & (nonzeroy < y_high) & (nonzerox >= x_low) & (nonzerox < x_high)]. *)
Definition in_window (y_low y_high x_low x_high : Z) (p : Z * Z) : bool :=
  (y_low <=? fst p) && (fst p <? y_high) && (x_low <=? snd p) && (snd p <? x_high).

Definition good_inds (nz : list (Z * Z)) (y_low y_high x_low x_high : Z) : list nat :=
  Np.true_inds (map (in_window y_low y_high x_low x_high) nz).

(** One iteration of [for window in range(nwindows)].  [shape0] is
    [binary_warped.shape[0]]; [nz] lists [warped_binary.nonzero()]. *)
Definition window_step (shape0 window_height : Z) (nz : list (Z * Z))
    (st : window_state) (window : Z) : window_state :=
  let nonzerox := map snd nz in
  let win_y_low := shape0 - (window + 1) * window_height in
  let win_y_high := shape0 - window * window_height in
  let win_xleft_low := leftx_current st - margin in
  let win_xleft_high := leftx_current st + margin in
  let win_xright_low := rightx_current st - margin in
  let win_xright_high := rightx_current st + margin in
  let good_left_inds := good_inds nz win_y_low win_y_high win_xleft_low win_xleft_high in
  let good_right_inds := good_inds nz win_y_low win_y_high win_xright_low win_xright_high in
  {| leftx_current :=
       if minpix <? Z.of_nat (length good_left_inds)
       then Np.mean_int (Np.take nonzerox good_left_inds)
       else leftx_current st;
     rightx_current :=
       if minpix <? Z.of_nat (length good_right_inds)
       then Np.mean_int (Np.take nonzerox good_right_inds)
       else rightx_current st;
     left_lane_inds := left_lane_inds st ++ [good_left_inds];
     right_lane_inds := right_lane_inds st ++ [good_right_inds] |}.

(** The pixels one search attributes to the two lines. *)
Record pixels : Type := {
  leftx : list Z;
  lefty : list Z;
  rightx : list Z;
  righty : list Z
}.

(** [leftx.shape[0] > 1 and rightx.shape[0] > 1]. *)
Definition enough (px : pixels) : bool :=
  (1 <? Z.of_nat (length (leftx px))) && (1 <? Z.of_nat (length (rightx px))).

(** The histogram seed shared by the two searches is written out in each,
    as in the notebook. *)

(** [sliding_window] up to the extraction of the line pixels.  The
    function reads the module-level array [warped_binary] for the window
    height and the nonzero pixels, and its parameter [binary_warped] for the
    histogram and the vertical window bounds.  The drawing calls on
    [out_img] are left out, except that the assignment
    [out_img[nonzeroy[inds], nonzerox[inds]] = ...] raises [IndexError]
    when a collected position lies outside the parameter's shape. *)
Definition sliding_window_search (warped_binary binary_warped : Np.ndarray)
    : result (Z * pixels) :=
  single_channel <- Np.channel0 binary_warped ;;
  let histogram :=
    Np.sum_axis0 (length (hd [] single_channel))
      (skipn (Z.to_nat (Z.quot (Z.of_nat (length single_channel)) 2)) single_channel) in
  let midpoint := Z.quot (Z.of_nat (length histogram)) 2 in
  leftx_base <- Np.argmax (firstn (Z.to_nat midpoint) histogram) ;;
  right_arg <- Np.argmax (skipn (Z.to_nat midpoint) histogram) ;;
  let rightx_base := right_arg + midpoint in
  let center_offset := Z.quot (leftx_base + rightx_base) 2 - midpoint in
  let window_height := Z.quot (Np.shape0 warped_binary) nwindows in
  let nz := Np.nonzero warped_binary in
  let nonzeroy := map fst nz in
  let nonzerox := map snd nz in
  let final :=
    fold_left (window_step (Np.shape0 binary_warped) window_height nz)
      (range nwindows)
      {| leftx_current := leftx_base; rightx_current := rightx_base;
         left_lane_inds := []; right_lane_inds := [] |} in
  let left_inds := concat (left_lane_inds final) in
  let right_inds := concat (right_lane_inds final) in
  let px := {| leftx := Np.take nonzerox left_inds;
               lefty := Np.take nonzeroy left_inds;
               rightx := Np.take nonzerox right_inds;
               righty := Np.take nonzeroy right_inds |} in
  if forallb (fun x => x <? Np.shape1 binary_warped) (leftx px ++ rightx px)
     && forallb (fun y => y <? Np.shape0 binary_warped) (lefty px ++ righty px)
  then Ok (center_offset, px)
  else Raise IndexError.

(** The boolean array
    [(nonzerox > c0*nonzeroy**2 + c1*nonzeroy + c2 - margin)
     & (nonzerox < c0*nonzeroy**2 + c1*nonzeroy + c2 + margin)],
    both bounds computed in float64 and compared with the column as a
    float64. *)
Definition near_curve (c0 c1 c2 : float64) (p : Z * Z) : bool :=
  PrimFloat.ltb (poly2 c0 c1 c2 (fst p) - Z2F margin)%float (Z2F (snd p))
  && PrimFloat.ltb (Z2F (snd p)) (poly2 c0 c1 c2 (fst p) + Z2F margin)%float.

(** [subsequent_frame] up to the extraction of the line pixels. *)
Definition subsequent_frame_search (binary_warped : Np.ndarray)
    (left_fit right_fit : fit) : result (Z * pixels) :=
  single_channel <-
    (if 2 <? Np.ndim binary_warped then Np.channel0 binary_warped
     else Ok (Np.plane binary_warped)) ;;
  let histogram :=
    Np.sum_axis0 (length (hd [] single_channel))
      (skipn (Z.to_nat (Z.quot (Z.of_nat (length single_channel)) 2)) single_channel) in
  let midpoint := Z.quot (Z.of_nat (length histogram)) 2 in
  leftx_base <- Np.argmax (firstn (Z.to_nat midpoint) histogram) ;;
  right_arg <- Np.argmax (skipn (Z.to_nat midpoint) histogram) ;;
  let rightx_base := right_arg + midpoint in
  let center_offset := Z.quot (leftx_base + rightx_base) 2 - midpoint in
  let nz := Np.nonzero binary_warped in
  let nonzeroy := map fst nz in
  let nonzerox := map snd nz in
  l0 <- getitem left_fit 0 ;;
  l1 <- getitem left_fit 1 ;;
  l2 <- getitem left_fit 2 ;;
  let left_lane_inds := map (near_curve l0 l1 l2) nz in
  r0 <- getitem right_fit 0 ;;
  r1 <- getitem right_fit 1 ;;
  r2 <- getitem right_fit 2 ;;
  let right_lane_inds := map (near_curve r0 r1 r2) nz in
  Ok (center_offset,
      {| leftx := Np.compress left_lane_inds nonzerox;
         lefty := Np.compress left_lane_inds nonzeroy;
         rightx := Np.compress right_lane_inds nonzerox;
         righty := Np.compress right_lane_inds nonzeroy |}).

Section Fitting.

(** The least-squares solver behind [np.polyfit(y, x, 2)], for a sample
    it accepts: the coefficients, highest power first. *)
Variable lstsq : list Z -> list Z -> float64 * float64 * float64.

(** The coefficient array of a solution. *)
Definition coefficients (c : float64 * float64 * float64) : fit :=
  [fst (fst c); snd (fst c); snd c].

(** [np.polyfit(y, x, 2)]: an empty sample raises [TypeError], and so do
    samples of different lengths.  When every abscissa is zero the columns
    y^2 and y of the Vandermonde matrix have norm zero, their scaling
    divides zero by zero and [lstsq] raises [LinAlgError]. *)
Definition polyfit (y x : list Z) : result fit :=
  match y with
  | [] => Raise TypeError
  | _ :: _ =>
      if Nat.eqb (length y) (length x) then
        if forallb (Z.eqb 0) y then Raise LinAlgError
        else Ok (coefficients (lstsq y x))
      else Raise TypeError
  end.

(** The tail of both searches: the validity flag is computed, then both
    lines are fitted, whatever the flag says. *)
Definition fit_lines (center_offset : Z) (px : pixels)
    : result (bool * Z * fit * fit) :=
  let lanes_detected := enough px in
  left_fit <- polyfit (lefty px) (leftx px) ;;
  right_fit <- polyfit (righty px) (rightx px) ;;
  Ok (lanes_detected, center_offset, left_fit, right_fit).

Definition sliding_window (warped_binary binary_warped : Np.ndarray)
    : result (bool * Z * fit * fit) :=
  s <- sliding_window_search warped_binary binary_warped ;;
  fit_lines (fst s) (snd s).

Definition subsequent_frame (binary_warped : Np.ndarray) (left_fit right_fit : fit)
    : result (bool * Z * fit * fit) :=
  s <- subsequent_frame_search binary_warped left_fit right_fit ;;
  fit_lines (fst s) (snd s).

(** ** The per-frame driver *)

(** The module-level variables [process_image] and [sliding_window] read
    or write. *)
Record globals : Type := {
  lanes_detected : option bool;
  left_fit : fit;
  right_fit : fit;
  warped_binary : Np.ndarray
}.

Definition initial_globals (test_image_mask : Np.ndarray) : globals :=
  {| lanes_detected := None; left_fit := []; right_fit := [];
     warped_binary := test_image_mask |}.

Definition set_tracking (g : globals) (r : bool * Z * fit * fit) : globals :=
  let '(d, _, lf, rf) := r in
  {| lanes_detected := Some d; left_fit := lf; right_fit := rf;
     warped_binary := warped_binary g |}.

Definition reset_detected (g : globals) : globals :=
  {| lanes_detected := None; left_fit := left_fit g; right_fit := right_fit g;
     warped_binary := warped_binary g |}.

(** Which search a call ran: a log kept beside the program state. *)
Inductive search : Set := WindowSearch | TargetedSearch.

(** What the frame returns: the undistorted image as it is, or the result
    of [overlay_lane_lines(img, mid_offset, left_fitx, right_fitx, ploty,
    curv_overlay=True)], recorded by the arguments of that call. *)
Inductive frame_out : Type :=
| Undistorted
| Overlay (mid_offset : Z) (left_fitx right_fitx : list float64) (ploty : list Z).

(** [c[0]*ploty**2 + c[1]*ploty + c[2]], where [ploty] is the float array
    [np.linspace(0, h-1, h)], listed by its integer values. *)
Definition fitx (c : fit) (ploty : list Z) : result (list float64) :=
  c0 <- getitem c 0 ;;
  c1 <- getitem c 1 ;;
  c2 <- getitem c 2 ;;
  Ok (map (fun y => poly2f c0 c1 c2 (Z2F y)) ploty).

(** [process_image] on a frame whose warped binary mask (the first result
    of [undist_pipeline_warp(img)]) is [mask].  The globals are returned as
    the call leaves them, also when it raises. *)
Definition process_image (g : globals) (mask : Np.ndarray)
    : globals * list search * result frame_out :=
  let first :=
    match lanes_detected g with
    | None =>
        match sliding_window (warped_binary g) mask with
        | Ok r => (set_tracking g r, [WindowSearch], None)
        | Raise e => (g, [WindowSearch], Some e)
        end
    | Some _ => (g, [], None)
    end in
  match first with
  | (g1, log, Some e) => (g1, log, Raise e)
  | (g1, log, None) =>
      match lanes_detected g1 with
      | Some true =>
          match subsequent_frame mask (left_fit g1) (right_fit g1) with
          | Ok (d, mid_offset, lf, rf) =>
              let ploty := Np.linspace (Np.shape0 mask) in
              (set_tracking g1 (d, mid_offset, lf, rf), log ++ [TargetedSearch],
               left_fitx <- fitx lf ploty ;;
               right_fitx <- fitx rf ploty ;;
               Ok (Overlay mid_offset left_fitx right_fitx ploty))
          | Raise e => (g1, log ++ [TargetedSearch], Raise e)
          end
      | _ => (reset_detected g1, log, Ok Undistorted)
      end
  end.

End Fitting.

(** ** Curvature measurement *)

(** The real number a finite float64 stands for.  The measurement below is
    idealised over the reals; a value that is not finite has no real number
    and is read as 0 there. *)
Definition F2R (f : float64) : R :=
  match FloatOps.Prim2SF f with
  | SpecFloat.S754_finite s m e =>
      ((if s then -1 else 1) * IZR (Zpos m) * powerRZ 2 e)%R
  | _ => 0%R
  end.

Module Geometry.

Local Open Scope R_scope.

(** A float64 value: a real number or one of the special values.  Dividing
    by zero does not raise in numpy: it gives an infinity (or NaN for
    [0/0]) and a warning. *)
Inductive float : Type :=
| Fin (r : R)
| PInf
| NInf
| NaN.

Definition fdiv (a b : R) : float :=
  if Req_dec_T b 0 then
    if Rlt_dec 0 a then PInf
    else if Rlt_dec a 0 then NInf
    else NaN
  else Fin (a / b).

(** A finite operation that maps each special value to itself: scaling by
    a positive constant, rounding. *)
Definition fmap (f : R -> R) (v : float) : float :=
  match v with
  | Fin r => Fin (f r)
  | PInf => PInf
  | NInf => NInf
  | NaN => NaN
  end.

Definition fadd (a b : float) : float :=
  match a, b with
  | Fin x, Fin y => Fin (x + y)
  | NaN, _ | _, NaN => NaN
  | PInf, NInf | NInf, PInf => NaN
  | PInf, _ | _, PInf => PInf
  | NInf, _ | _, NInf => NInf
  end.

Definition floorR (r : R) : Z := (up r - 1)%Z.

Definition round_half_even (r : R) : Z :=
  let f := floorR r in
  let d := r - IZR f in
  if Rlt_dec d (1 / 2) then f
  else if Rlt_dec (1 / 2) d then (f + 1)%Z
  else if Z.even f then f else (f + 1)%Z.

(** [round(r, 1)]. *)
Definition round1 (r : R) : R := IZR (round_half_even (r * 10)) / 10.

(** [np.max(a)]. *)
Definition amax (a : list R) : result R :=
  match a with
  | [] => Raise ValueError
  | x :: t => Ok (fold_left Rmax t x)
  end.

Definition ym_per_pix : R := 30 / 720.
Definition xm_per_pix : R := 3.7 / 700.

(** [((1 + (2*c[0]*y + c[1])**2)**1.5) / np.absolute(2*c[0])], the
    expression the notebook writes for each line, in pixels and in metres. *)
Definition curverad (c : R * R * R) (y : R) : float :=
  let '(c0, c1, _) := c in
  fdiv (Rpower (1 + (2 * c0 * y + c1) ^ 2) 1.5) (Rabs (2 * c0)).

Section Measure.

(** The least-squares solver behind [np.polyfit(y, x, 2)] on float
    samples. *)
Variable lstsq : list R -> list R -> R * R * R.

(** [np.polyfit(y, x, 2)] as in the pixel search: [TypeError] on an empty
    sample or on different lengths, [LinAlgError] when every abscissa is
    zero. *)
Definition polyfit (y x : list R) : result (R * R * R) :=
  match y with
  | [] => Raise TypeError
  | _ :: _ =>
      if Nat.eqb (length y) (length x) then
        if forallb (fun v => if Req_dec_T v 0 then true else false) y
        then Raise LinAlgError
        else Ok (lstsq y x)
      else Raise TypeError
  end.

(** [calculate_curvature(midoffset, leftx, rightx, ploty)], returning
    [(position, curvature)].  The plot branch is left out. *)
Definition calculate_curvature (midoffset : Z) (leftx rightx ploty : list R)
    : result (R * float) :=
  left_fit <- polyfit ploty leftx ;;
  right_fit <- polyfit ploty rightx ;;
  y_eval <- amax ploty ;;
  let left_curverad_px := curverad left_fit y_eval in
  let right_curverad_px := curverad right_fit y_eval in
  left_fit_cr <- polyfit (map (fun y => y * ym_per_pix) ploty)
                         (map (fun x => x * xm_per_pix) leftx) ;;
  right_fit_cr <- polyfit (map (fun y => y * ym_per_pix) ploty)
                          (map (fun x => x * xm_per_pix) rightx) ;;
  let left_curverad := curverad left_fit_cr (y_eval * ym_per_pix) in
  let right_curverad := curverad right_fit_cr (y_eval * ym_per_pix) in
  let curvature :=
    fmap (fun s => 0.5 * s)
      (fadd (fmap round1 (fmap (fun r => r / 1000) right_curverad))
            (fmap round1 (fmap (fun r => r / 1000) left_curverad))) in
  let position := round1 (100 * IZR midoffset * xm_per_pix) in
  Ok (position, curvature).

(** The measurement [overlay_lane_lines] prints on a frame drawn with
    [curv_overlay=True]. *)
Definition frame_geometry (o : frame_out) : option (result (R * float)) :=
  match o with
  | Undistorted => None
  | Overlay mid_offset left_fitx right_fitx ploty =>
      Some (calculate_curvature mid_offset (map F2R left_fitx)
              (map F2R right_fitx) (map IZR ploty))
  end.

End Measure.

End Geometry.

(** ** The centre offset as the specification words it *)

(** The plane the histogram is taken from: the first channel of a
    three-channel mask, a two-dimensional mask as it is. *)
Definition single_plane (a : Np.ndarray) : list (list Z) :=
  match a with
  | Np.Arr2 rows => rows
  | Np.Arr3 rows => map (map (fun px => hd 0 px)) rows
  end.

(** Section 4.1 of the specification: the column sums over the bottom half
    of the image form a histogram of length W; the column of maximum value
    in each half, split at W/2, is the base of that line; the offset is
    (leftx_base + rightx_base)/2 - W/2. *)
Definition spec_center_offset (plane : list (list Z)) : result Z :=
  let h := length plane in
  let w := length (hd [] plane) in
  let bottom := skipn (Nat.div h 2) plane in
  let histogram := map (fun x => Np.sum (map (fun r => nth x r 0) bottom)) (seq 0 w) in
  leftx_base <- Np.argmax (firstn (Nat.div w 2) histogram) ;;
  right_arg <- Np.argmax (skipn (Nat.div w 2) histogram) ;;
  let rightx_base := right_arg + Z.of_nat (Nat.div w 2) in
  Ok ((leftx_base + rightx_base) / 2 - Z.of_nat (Nat.div w 2)).

(** ** Counting pixels *)

Definition position_eq_dec (p q : Z * Z) : {p = q} + {p <> q}.
Proof. decide equality; apply Z.eq_dec. Defined.

(** The distinct positions among the entries [inds] of a nonzero list: the
    active pixels, each counted once however many channels it has. *)
Definition distinct_positions (nz : list (Z * Z)) (inds : list nat) : list (Z * Z) :=
  nodup position_eq_dec (map (fun i => nth i nz (0, 0)) inds).

(** ** Least-squares solvers to run the development on *)

(** The solution of the normal equations of a sample, in exact integer
    arithmetic, each coefficient the float64 quotient of its numerator by
    the determinant (one rounding when both are below 2^53).  For a sample
    with at least three distinct abscissae this is the least-squares
    parabola, the one [np.polyfit] computes up to rounding, and the
    development evaluates it on such samples only.  With fewer distinct
    abscissae the determinant is zero; numpy then answers with a
    minimum-norm solution, which is not modelled: the answer here is NaN. *)
Definition power_sum (k : nat) (ys ws : list Z) : Z :=
  Np.sum (map (fun p => snd p * fst p ^ Z.of_nat k) (combine ys ws)).

Definition det3 (a b c d e f g h i : Z) : Z :=
  a * (e * i - f * h) - b * (d * i - f * g) + c * (d * h - e * g).

Definition normal_equations_fit (ys xs : list Z) : float64 * float64 * float64 :=
  let ones := map (fun _ => 1) ys in
  let s0 := power_sum 0 ys ones in
  let s1 := power_sum 1 ys ones in
  let s2 := power_sum 2 ys ones in
  let s3 := power_sum 3 ys ones in
  let s4 := power_sum 4 ys ones in
  let t0 := power_sum 0 ys xs in
  let t1 := power_sum 1 ys xs in
  let t2 := power_sum 2 ys xs in
  let d := det3 s4 s3 s2 s3 s2 s1 s2 s1 s0 in
  if d =? 0 then (PrimFloat.nan, PrimFloat.nan, PrimFloat.nan)
  else (Z2F (det3 t2 s3 s2 t1 s2 s1 t0 s1 s0) / Z2F d,
        Z2F (det3 s4 t2 s2 s3 t1 s1 s2 t0 s0) / Z2F d,
        Z2F (det3 s4 s3 t2 s3 s2 t1 s2 s1 t0) / Z2F d)%float.

(** The same solution over the real numbers, for the curvature
    measurement: the least-squares parabola of a sample with at least three
    distinct abscissae. *)
Definition power_sumR (k : nat) (ys ws : list R) : R :=
  fold_right Rplus 0%R (map (fun p => (snd p * fst p ^ k)%R) (combine ys ws)).

Definition det3R (a b c d e f g h i : R) : R :=
  (a * (e * i - f * h) - b * (d * i - f * g) + c * (d * h - e * g))%R.

Definition normal_equations (ys xs : list R) : R * R * R :=
  let ones := map (fun _ => 1%R) ys in
  let s0 := power_sumR 0 ys ones in
  let s1 := power_sumR 1 ys ones in
  let s2 := power_sumR 2 ys ones in
  let s3 := power_sumR 3 ys ones in
  let s4 := power_sumR 4 ys ones in
  let t0 := power_sumR 0 ys xs in
  let t1 := power_sumR 1 ys xs in
  let t2 := power_sumR 2 ys xs in
  let d := det3R s4 s3 s2 s3 s2 s1 s2 s1 s0 in
  (det3R t2 s3 s2 t1 s2 s1 t0 s1 s0 / d,
   det3R s4 t2 s2 s3 t1 s1 s2 t0 s0 / d,
   det3R s4 s3 t2 s3 s2 t1 s2 s1 t0 / d)%R.

(** The columns, in pixels, of the curve that is x = a * y^2 in metres, on
    the rows 0, 1 and 2 of an image three rows high. *)
Definition metric_parabola (a : R) : list R :=
  map (fun y => (a * (IZR y * Geometry.ym_per_pix) ^ 2
                 / Geometry.xm_per_pix)%R)
      (Np.linspace 3).

(** ** Sample data *)

Definition on_px : list Z := [255; 255; 255].
Definition off_px : list Z := [0; 0; 0].

(** An all-zero three-channel mask of [h] rows and [w] columns. *)
Definition blank (h w : nat) : Np.ndarray :=
  Np.Arr3 (repeat (repeat off_px w) h).

(** A row of width [w] whose active pixels are the columns [cols]. *)
Definition row_with (w : nat) (cols : list nat) : list (list Z) :=
  map (fun x => if existsb (Nat.eqb x) cols then on_px else off_px) (seq 0 w).

(** Two vertical lines, at columns 1 and 6 of a 9 x 8 mask. *)
Definition two_lines : Np.ndarray :=
  Np.Arr3 (repeat (row_with 8 [1%nat; 6%nat]) 9).

(** A 9 x 40 mask whose bottom row has 17 active pixels, columns 0 to 16. *)
Definition short_dash : Np.ndarray :=
  Np.Arr3 (repeat (row_with 40 []) 8 ++ [row_with 40 (seq 0 17)]).


(** Three rows of 302 pixels, columns 0 and 300 active in each. *)
Definition two_posts : Np.ndarray :=
  Np.Arr3 (repeat (row_with 302 [0%nat; 300%nat]) 3).

(** Three rows of 302 pixels, column 0 active in each: a left line and no
    right line. *)
Definition left_line_only : Np.ndarray :=
  Np.Arr3 (repeat (row_with 302 [0%nat]) 3).

(** One row of 302 pixels, columns 0 and 300 active. *)
Definition two_dots : Np.ndarray :=
  Np.Arr3 [row_with 302 [0%nat; 300%nat]].

(** What either search returns on a mask without nonzero entries. *)
Definition no_pixels : pixels :=
  {| leftx := []; lefty := []; rightx := []; righty := [] |}.

(** What the targeted search returns on [two_dots] for priors at x = 0
    and x = 300: one entry per channel of each dot. *)
Definition two_dots_pixels : pixels :=
  {| leftx := [0; 0; 0]; lefty := [0; 0; 0];
     rightx := [300; 300; 300]; righty := [0; 0; 0] |}.

(** Globals of a stream that is tracking two vertical lines, at x = 0 and
    x = 300. *)
Definition tracking_globals : globals :=
  {| lanes_detected := Some true;
     left_fit := [0; 0; 0]%float;
     right_fit := [0; 0; 300]%float;
     warped_binary := two_lines |}.

(** ** The thresholded mask *)

(** [(c >= t[0]) & (c <= t[1])] for one value of a channel. *)
Definition in_range (t : Z * Z) (c : Z) : bool :=
  (fst t <=? c) && (c <=? snd t).

(** The three channels [pipeline] thresholds, pixel by pixel: the L and S
    channels of the HLS image and the scaled Sobel gradient, all three
    computed by OpenCV from one image and therefore of one shape. *)
Record channels : Type := {
  l_channel : Z;
  s_channel : Z;
  scaled_sobel : Z
}.

(** The binary masks of one pixel. *)
Definition sxbinary (sx_thresh : Z * Z) (c : channels) : Z :=
  if in_range sx_thresh (scaled_sobel c) then 1 else 0.

Definition s_binary (s_thresh : Z * Z) (c : channels) : Z :=
  if in_range s_thresh (s_channel c) then 1 else 0.

Definition l_binary (l_thresh : Z * Z) (c : channels) : Z :=
  if in_range l_thresh (l_channel c) then 1 else 0.

(** [binary[((l_binary == 1) & (s_binary == 1) | (sxbinary == 1))] = 1]
    on an array of zeros; [&] binds tighter than [|]. *)
Definition binary_px (s_thresh sx_thresh l_thresh : Z * Z) (c : channels) : Z :=
  if ((l_binary l_thresh c =? 1) && (s_binary s_thresh c =? 1))
     || (sxbinary sx_thresh c =? 1)
  then 1 else 0.

(** [pipeline] after the OpenCV calls: [(color_binary, binary)]. *)
Definition pipeline (s_thresh sx_thresh l_thresh : Z * Z)
    (img : list (list channels)) : list (list (list Z)) * list (list Z) :=
  (map (map (fun c => [0; sxbinary sx_thresh c; s_binary s_thresh c])) img,
   map (map (binary_px s_thresh sx_thresh l_thresh)) img).

(** [255*np.dstack((binary,binary,binary)).astype('uint8')] in
    [undist_pipeline_warp]: the product is taken in uint8. *)
Definition combined_binary (binary : list (list Z)) : Np.ndarray :=
  Np.Arr3 (map (map (fun v => let c := (255 * v) mod 256 in [c; c; c])) binary).

Definition triple {A : Type} (p : A) : list A := [p; p; p].

(** A three-channel array whose channels are equal, as [np.dstack] of one
    plane three times gives. *)
Definition three_alike (px : list Z) : bool :=
  match px with
  | [a; b; c] => (a =? b) && (b =? c)
  | _ => false
  end.

Definition channel_identical (a : Np.ndarray) : bool :=
  match a with
  | Np.Arr2 _ => false
  | Np.Arr3 rows => forallb (forallb three_alike) rows
  end.

(** Four pixels: bright and saturated, dark and saturated with a weak
    gradient, a strong gradient alone, and nothing. *)
Definition four_pixels : list (list channels) :=
  [[{| l_channel := 200; s_channel := 115; scaled_sobel := 0 |};
    {| l_channel := 10; s_channel := 200; scaled_sobel := 22 |}];
   [{| l_channel := 0; s_channel := 0; scaled_sobel := 90 |};
    {| l_channel := 30; s_channel := 30; scaled_sobel := 3 |}]].

(** ** The overlay polygon *)

(** The integer a finite float64 is cut to, towards zero. *)
Definition trunc (f : float64) : option Z :=
  match FloatOps.Prim2SF f with
  | SpecFloat.S754_zero _ => Some 0
  | SpecFloat.S754_finite s m e =>
      let a := if 0 <=? e then Zpos m * 2 ^ e else Zpos m / 2 ^ (- e) in
      Some (if s then - a else a)
  | _ => None
  end.

Definition in_int64 (z : Z) : bool := (- 2 ^ 63 <=? z) && (z <? 2 ^ 63).

(** [np.int_] of a float64 is a conversion to int64: the value cut towards
    zero when that fits.  For NaN, an infinity or a value out of range the
    conversion is left to the processor; x86-64 yields -2^63. *)
Definition int_ (f : float64) : Z :=
  match trunc f with
  | Some t => if in_int64 t then t else - 2 ^ 63
  | None => - 2 ^ 63
  end.

(** The vertices [overlay_lane_lines] hands to [cv2.fillPoly]:
    [np.int_] of [np.hstack((left, right))], where [left] pairs
    [left_fitx] with [yvals] and [right] is the pairing of [right_fitx]
    with [yvals] turned upside down.  [np.vstack] raises [ValueError] on
    rows of different lengths.  [yvals] is a float array too. *)
Definition lane_polygon (left_fitx right_fitx yvals : list float64)
    : result (list (Z * Z)) :=
  if Nat.eqb (length left_fitx) (length yvals) then
    if Nat.eqb (length right_fitx) (length yvals) then
      Ok (combine (map int_ left_fitx) (map int_ yvals)
          ++ rev (combine (map int_ right_fitx) (map int_ yvals)))
    else Raise ValueError
  else Raise ValueError.

(** ** A stream of frames *)

Section Stream.

Variable lstsq : list Z -> list Z -> float64 * float64 * float64.

(** [clip.fl_image(process_image)] on the frames of a clip, as long as no
    frame raises: the globals after the last frame and, for each frame,
    the searches it ran and what it returned.  An exception ends the
    stream; the globals are then those the failing call left. *)
Fixpoint process_frames (g : globals) (masks : list Np.ndarray)
    : globals * list (list search * result frame_out) :=
  match masks with
  | [] => (g, [])
  | m :: rest =>
      match process_image lstsq g m with
      | (g1, log, Ok out) =>
          let '(g2, outs) := process_frames g1 rest in
          (g2, (log, Ok out) :: outs)
      | (g1, log, Raise e) => (g1, [(log, Raise e)])
      end
  end.

End Stream.

(** * Properties *)

(** ** Exceptions and array operations *)

Lemma bind_ok {A B : Type} (r : result A) (k : A -> result B) (b : B) :
  bind r k = Ok b -> exists a, r = Ok a /\ k a = Ok b.
Proof.
  destruct r as [a | e]; simpl; intros H.
  - exists a; split; [reflexivity | exact H].
  - discriminate H.
Qed.

(** Splits a hypothesis [x <- r ;; k = Ok b] into [r = Ok x] and [k x = Ok b]. *)
Ltac bind_inv H :=
  let a := fresh "v" in
  let Ha := fresh "E" in
  apply bind_ok in H; destruct H as [a [Ha H]].

Lemma ok_pair {A B : Type} {a a' : A} {b b' : B} :
  Ok (a, b) = Ok (a', b') -> a = a' /\ b = b'.
Proof. intros H. injection H as -> ->. split; reflexivity. Qed.

Lemma compress_filter (f : Z * Z -> bool) (nz : list (Z * Z)) :
  combine (Np.compress (map f nz) (map fst nz))
          (Np.compress (map f nz) (map snd nz)) = filter f nz.
Proof.
  induction nz as [| [y x] nz IH]; simpl; [reflexivity |].
  destruct (f (y, x)); simpl; rewrite IH; reflexivity.
Qed.

Lemma near_curve_iff (c0 c1 c2 : float64) (y x : Z) :
  near_curve c0 c1 c2 (y, x) = true <->
  (poly2 c0 c1 c2 y - Z2F margin <? Z2F x)%float = true
  /\ (Z2F x <? poly2 c0 c1 c2 y + Z2F margin)%float = true.
Proof. unfold near_curve; simpl. apply andb_true_iff. Qed.

(** The pixels the targeted search returns for one line are the nonzero
    entries of the mask that pass that line's test. *)
Lemma subsequent_frame_search_pixels (m : Np.ndarray)
    (l0 l1 l2 r0 r1 r2 : float64) (co : Z) (px : pixels) :
  subsequent_frame_search m [l0; l1; l2] [r0; r1; r2] = Ok (co, px) ->
  combine (lefty px) (leftx px) = filter (near_curve l0 l1 l2) (Np.nonzero m)
  /\ combine (righty px) (rightx px) = filter (near_curve r0 r1 r2) (Np.nonzero m).
Proof.
  unfold subsequent_frame_search. intros H.
  bind_inv H. bind_inv H. bind_inv H.
  cbn [getitem nth_error bind] in H.
  apply ok_pair in H. destruct H as [_ Hpx]. subst px.
  cbn [leftx lefty rightx righty].
  split; apply compress_filter.
Qed.

(** ** C5: membership in the targeted search *)

(** C5, as the code has it: in the targeted search an entry (y, x) of the
    mask's nonzero list belongs to the left pixels exactly when x, as a
    float64, lies strictly between the two bounds the notebook computes in
    float64 from the left prior curve, c0*y^2 + c1*y + c2 - margin and
    c0*y^2 + c1*y + c2 + margin, and to the right pixels exactly when the
    same holds for the right prior curve.  Both comparisons are strict: a
    column that equals a bound is outside. *)
Theorem C5_targeted_membership_strict (m : Np.ndarray)
    (l0 l1 l2 r0 r1 r2 : float64) (co : Z) (px : pixels) (y x : Z) :
  subsequent_frame_search m [l0; l1; l2] [r0; r1; r2] = Ok (co, px) ->
  (In (y, x) (combine (lefty px) (leftx px)) <->
     In (y, x) (Np.nonzero m)
     /\ (l0 * Z2F (y * y) + l1 * Z2F y + l2 - Z2F margin <? Z2F x)%float = true
     /\ (Z2F x <? l0 * Z2F (y * y) + l1 * Z2F y + l2 + Z2F margin)%float = true)
  /\ (In (y, x) (combine (righty px) (rightx px)) <->
     In (y, x) (Np.nonzero m)
     /\ (r0 * Z2F (y * y) + r1 * Z2F y + r2 - Z2F margin <? Z2F x)%float = true
     /\ (Z2F x <? r0 * Z2F (y * y) + r1 * Z2F y + r2 + Z2F margin)%float = true).
Proof.
  intros H. apply subsequent_frame_search_pixels in H. destruct H as [Hl Hr].
  rewrite Hl, Hr, !filter_In, !near_curve_iff. unfold poly2. tauto.
Qed.

Lemma C5_targeted_membership_strict_witness :
  subsequent_frame_search two_dots [0; 0; 0]%float [0; 0; 300]%float
    = Ok (-1, two_dots_pixels)
  /\ (In (0, 300) (combine (righty two_dots_pixels) (rightx two_dots_pixels)) <->
      In (0, 300) (Np.nonzero two_dots)
      /\ (0 * Z2F (0 * 0) + 0 * Z2F 0 + 300 - Z2F margin <? Z2F 300)%float = true
      /\ (Z2F 300 <? 0 * Z2F (0 * 0) + 0 * Z2F 0 + 300 + Z2F margin)%float = true).
Proof.
  split; [vm_compute; reflexivity |].
  apply (C5_targeted_membership_strict two_dots 0 0 0 0 0 300 (-1)
           two_dots_pixels 0 300).
  vm_compute. reflexivity.
Defined.

(** C5, counterexample to the claim as stated: column 0 of the mask
    [two_dots] is exactly margin away from a left prior at x = -100, and
    column 300 exactly margin away from a right prior at x = 400 (all the
    numbers are small integers, which float64 holds exactly); the claim
    includes both, the search returns neither. *)
Lemma C5_boundary_excluded :
  exists co px,
    subsequent_frame_search two_dots [0; 0; -100]%float [0; 0; 400]%float
      = Ok (co, px)
    /\ In (0, 0) (Np.nonzero two_dots)
    /\ (Z2F 0 - poly2 0 0 (-100) 0)%float = Z2F margin
    /\ ~ In (0, 0) (combine (lefty px) (leftx px))
    /\ In (0, 300) (Np.nonzero two_dots)
    /\ (poly2 0 0 400 0 - Z2F 300)%float = Z2F margin
    /\ ~ In (0, 300) (combine (righty px) (rightx px)).
Proof.
  eexists; eexists. split; [vm_compute; reflexivity |].
  cbn [lefty leftx righty rightx combine].
  repeat split; try (vm_compute; tauto); try (vm_compute; reflexivity).
Qed.

(** The bounds are float64 values.  For the left prior
    x = -2^-60 * y^2 + 100 the curve passes row 1 at 100 - 2^-60, so that
    column 0 is less than margin away from it; in float64 the curve's value
    rounds to 100, the lower bound to 0, and the entry (1, 0) fails the
    strict test. *)
Lemma targeted_bounds_are_rounded :
  poly2 (-0x1p-60) 0 100 1 = 100%float
  /\ near_curve (-0x1p-60) 0 100 (1, 0) = false.
Proof. split; vm_compute; reflexivity. Qed.

(** ** C9: the centre offset *)

Lemma half_Z (n : nat) : Z.quot (Z.of_nat n) 2 = Z.of_nat (Nat.div n 2).
Proof.
  rewrite Z.quot_div_nonneg by lia.
  change 2 with (Z.of_nat 2). rewrite <- Nat2Z.inj_div. reflexivity.
Qed.

Lemma half_nat (n : nat) : Z.to_nat (Z.quot (Z.of_nat n) 2) = Nat.div n 2.
Proof. rewrite half_Z. apply Nat2Z.id. Qed.

Lemma argmax_nonneg (l : list Z) (v : Z) : Np.argmax l = Ok v -> 0 <= v.
Proof.
  destruct l as [| a t]; simpl; intros H; [discriminate |].
  injection H as <-. lia.
Qed.

Lemma argmax_ok (l : list Z) : (0 < length l)%nat -> exists v, Np.argmax l = Ok v.
Proof.
  destruct l as [| a t]; simpl; intros H; [lia |]. eexists; reflexivity.
Qed.

Lemma halves_argmax (histogram : list Z) :
  (2 <= length histogram)%nat ->
  exists l r,
    Np.argmax (firstn (Nat.div (length histogram) 2) histogram) = Ok l
    /\ Np.argmax (skipn (Nat.div (length histogram) 2) histogram) = Ok r.
Proof.
  intros Hw.
  assert (Hdiv : (1 <= Nat.div (length histogram) 2
                  /\ Nat.div (length histogram) 2 < length histogram)%nat).
  { split; [apply (Nat.div_le_lower_bound (length histogram) 2 1); lia
           | apply Nat.div_lt; lia]. }
  destruct (argmax_ok (firstn (Nat.div (length histogram) 2) histogram))
    as [l Hl]; [rewrite length_firstn; lia |].
  destruct (argmax_ok (skipn (Nat.div (length histogram) 2) histogram))
    as [r Hr]; [rewrite length_skipn; lia |].
  exists l, r. split; assumption.
Qed.

Lemma sum_axis0_length (w : nat) (rows : list (list Z)) :
  length (Np.sum_axis0 w rows) = w.
Proof. unfold Np.sum_axis0. rewrite length_map, length_seq. reflexivity. Qed.

(** The offset either search computes from a plane is the specification's. *)
Lemma code_offset_is_spec (sc : list (list Z)) (l r : Z) :
  let histogram :=
    Np.sum_axis0 (length (hd [] sc))
      (skipn (Z.to_nat (Z.quot (Z.of_nat (length sc)) 2)) sc) in
  let midpoint := Z.quot (Z.of_nat (length histogram)) 2 in
  Np.argmax (firstn (Z.to_nat midpoint) histogram) = Ok l ->
  Np.argmax (skipn (Z.to_nat midpoint) histogram) = Ok r ->
  spec_center_offset sc = Ok (Z.quot (l + (r + midpoint)) 2 - midpoint).
Proof.
  cbv zeta. rewrite sum_axis0_length, !half_nat, half_Z.
  intros E E0.
  unfold spec_center_offset. cbv zeta. unfold Np.sum_axis0 in E, E0.
  rewrite E. cbn [bind]. rewrite E0. cbn [bind].
  apply argmax_nonneg in E, E0.
  rewrite Z.quot_div_nonneg by lia. reflexivity.
Qed.

Lemma subsequent_frame_search_offset (m : Np.ndarray) (lf rf : fit)
    (co : Z) (px : pixels) :
  subsequent_frame_search m lf rf = Ok (co, px) ->
  spec_center_offset (single_plane m) = Ok co.
Proof.
  unfold subsequent_frame_search. intros H. bind_inv H.
  assert (Hv : v = single_plane m).
  { destruct m; simpl in E; injection E as <-; reflexivity. }
  subst v. bind_inv H. bind_inv H.
  pose proof (code_offset_is_spec (single_plane m) v v0 E0 E1) as Hs.
  rewrite Hs. f_equal.
  repeat bind_inv H. injection H as H _. exact H.
Qed.

Lemma sliding_window_search_offset (G m : Np.ndarray) (co : Z) (px : pixels) :
  sliding_window_search G m = Ok (co, px) ->
  spec_center_offset (single_plane m) = Ok co.
Proof.
  unfold sliding_window_search. intros H. bind_inv H.
  assert (Hv : v = single_plane m).
  { destruct m; simpl in E; [discriminate |]. injection E as <-; reflexivity. }
  subst v. bind_inv H. bind_inv H.
  pose proof (code_offset_is_spec (single_plane m) v v0 E0 E1) as Hs.
  rewrite Hs. f_equal.
  match type of H with (if ?c then _ else _) = _ => destruct c end;
    [| discriminate].
  exact (proj1 (ok_pair H)).
Qed.

Lemma fit_lines_offset (lstsq : list Z -> list Z -> float64 * float64 * float64) (co : Z)
    (px : pixels) (d : bool) (c : Z) (lf rf : fit) :
  fit_lines lstsq co px = Ok (d, c, lf, rf) -> c = co /\ d = enough px.
Proof.
  unfold fit_lines. intros H. bind_inv H. bind_inv H.
  injection H as Hd Hc _ _. split; congruence.
Qed.

(** X4: the targeted search returns, without raising, on every mask at
    least two columns wide, for priors of three coefficients. *)
Lemma subsequent_frame_search_returns (m : Np.ndarray)
    (l0 l1 l2 r0 r1 r2 : float64) :
  2 <= Np.shape1 m ->
  exists co px,
    subsequent_frame_search m [l0; l1; l2] [r0; r1; r2] = Ok (co, px).
Proof.
  intros Hw. unfold subsequent_frame_search.
  assert (Hsc : (if 2 <? Np.ndim m then Np.channel0 m else Ok (Np.plane m))
                = Ok (single_plane m)) by (destruct m; reflexivity).
  rewrite Hsc. cbn [bind]. cbv zeta. rewrite !half_nat.
  destruct (halves_argmax
              (Np.sum_axis0 (length (hd [] (single_plane m)))
                 (skipn (Nat.div (length (single_plane m)) 2) (single_plane m))))
    as [l [r [Hl Hr]]].
  { rewrite sum_axis0_length.
    destruct m as [rows | rows]; simpl in Hw |- *;
      destruct rows as [| row rows]; simpl in Hw |- *;
      rewrite ?length_map; lia. }
  rewrite Hl. cbn [bind]. rewrite Hr. cbn [bind getitem nth_error].
  eexists; eexists; reflexivity.
Qed.

(** C9: for one mask, whatever prior fits the targeted search is given,
    the centre offset it returns is the same value: the one section 4.1
    computes from the bottom-half column histogram of the mask, which is
    also the one the window search returns for that mask. *)
Theorem C9_center_offset_ignores_priors
    (lstsq : list Z -> list Z -> float64 * float64 * float64) (m : Np.ndarray)
    (lf1 rf1 lf2 rf2 : fit) (d1 d2 : bool) (c1 c2 : Z) (a1 b1 a2 b2 : fit) :
  subsequent_frame lstsq m lf1 rf1 = Ok (d1, c1, a1, b1) ->
  subsequent_frame lstsq m lf2 rf2 = Ok (d2, c2, a2, b2) ->
  c1 = c2
  /\ spec_center_offset (single_plane m) = Ok c1
  /\ forall (G : Np.ndarray) (d3 : bool) (c3 : Z) (a3 b3 : fit),
       sliding_window lstsq G m = Ok (d3, c3, a3, b3) -> c3 = c1.
Proof.
  unfold subsequent_frame, sliding_window. intros H1 H2.
  bind_inv H1. bind_inv H2.
  destruct v as [co1 px1], v0 as [co2 px2].
  apply fit_lines_offset in H1, H2. cbn [fst snd] in *.
  destruct H1 as [-> _], H2 as [-> _].
  apply subsequent_frame_search_offset in E, E0.
  assert (Hco : co1 = co2) by congruence.
  split; [exact Hco |]. split; [exact E |].
  intros G d3 c3 a3 b3 H3. bind_inv H3. destruct v as [co3 px3].
  apply fit_lines_offset in H3. cbn [fst snd] in *. destruct H3 as [-> _].
  apply sliding_window_search_offset in E1. congruence.
Qed.

Lemma C9_center_offset_ignores_priors_witness :
  subsequent_frame normal_equations_fit two_posts [0; 0; 0]%float [0; 0; 300]%float
    = Ok (true, -1, [0; 0; 0]%float, [0; 0; 300]%float)
  /\ subsequent_frame normal_equations_fit two_posts
       [0; 0; 300]%float [0; 0; 0]%float
    = Ok (true, -1, [0; 0; 300]%float, [0; 0; 0]%float)
  /\ spec_center_offset (single_plane two_posts) = Ok (-1).
Proof.
  assert (H1 : subsequent_frame normal_equations_fit two_posts
                 [0; 0; 0]%float [0; 0; 300]%float
               = Ok (true, -1, [0; 0; 0]%float, [0; 0; 300]%float))
    by (vm_compute; reflexivity).
  assert (H2 : subsequent_frame normal_equations_fit two_posts
                 [0; 0; 300]%float [0; 0; 0]%float
               = Ok (true, -1, [0; 0; 300]%float, [0; 0; 0]%float))
    by (vm_compute; reflexivity).
  split; [exact H1 |]. split; [exact H2 |].
  exact (proj1 (proj2 (C9_center_offset_ignores_priors normal_equations_fit
                         two_posts _ _ _ _ _ _ _ _ _ _ _ _ H1 H2))).
Defined.

(** ** The window loop *)

Lemma true_inds_from_In (b : list bool) (k i : nat) :
  In i (Np.true_inds_from k b) <->
  (k <= i)%nat /\ nth_error b (i - k) = Some true.
Proof.
  revert k. induction b as [| v b IH]; intros k.
  - simpl. split; [tauto | intros [_ H]]. destruct (i - k)%nat; discriminate.
  - assert (Hcase : forall j, (k <= j)%nat ->
              nth_error (v :: b) (j - k) =
              if Nat.eqb j k then Some v else nth_error b (j - S k)).
    { intros j Hj. destruct (Nat.eqb_spec j k) as [-> | Hne].
      - rewrite Nat.sub_diag. reflexivity.
      - replace (j - k)%nat with (S (j - S k)) by lia. reflexivity. }
    destruct v; simpl; rewrite ?IH.
    + split.
      * intros [<- | [Hle Hn]].
        -- split; [lia |]. rewrite Nat.sub_diag. reflexivity.
        -- split; [lia |]. rewrite Hcase by lia.
           destruct (Nat.eqb_spec i k); [lia | exact Hn].
      * intros [Hle Hn]. rewrite Hcase in Hn by lia.
        destruct (Nat.eqb_spec i k) as [-> | Hne]; [left; reflexivity |].
        right. split; [lia | exact Hn].
    + split.
      * intros [Hle Hn]. split; [lia |]. rewrite Hcase by lia.
        destruct (Nat.eqb_spec i k); [lia | exact Hn].
      * intros [Hle Hn]. rewrite Hcase in Hn by lia.
        destruct (Nat.eqb_spec i k) as [-> | Hne]; [discriminate |].
        split; [lia | exact Hn].
Qed.

Lemma in_window_iff (y_low y_high x_low x_high y x : Z) :
  in_window y_low y_high x_low x_high (y, x) = true <->
  (y_low <= y < y_high) /\ (x_low <= x < x_high).
Proof.
  unfold in_window; simpl.
  rewrite !andb_true_iff, !Z.leb_le, !Z.ltb_lt. tauto.
Qed.

(** The indices one window keeps: those of the entries inside it. *)
Lemma good_inds_spec (nz : list (Z * Z)) (y_low y_high x_low x_high : Z) (i : nat) :
  In i (good_inds nz y_low y_high x_low x_high) <->
  exists y x, nth_error nz i = Some (y, x)
              /\ (y_low <= y < y_high) /\ (x_low <= x < x_high).
Proof.
  unfold good_inds, Np.true_inds. rewrite true_inds_from_In, Nat.sub_0_r.
  rewrite nth_error_map. split.
  - intros [_ H]. destruct (nth_error nz i) as [[y x] |] eqn:E; [| discriminate].
    exists y, x. split; [reflexivity |]. apply in_window_iff.
    simpl in H. congruence.
  - intros [y [x [E H]]]. split; [lia |]. rewrite E. simpl.
    f_equal. apply in_window_iff. exact H.
Qed.


Lemma good_inds_bound (nz : list (Z * Z)) (y_low y_high x_low x_high : Z) :
  Forall (fun i => (i < length nz)%nat) (good_inds nz y_low y_high x_low x_high).
Proof.
  apply Forall_forall. intros i Hi. apply good_inds_spec in Hi.
  destruct Hi as [y [x [E _]]]. apply nth_error_Some. congruence.
Qed.

Lemma window_loop_bound (shape0 window_height : Z) (nz : list (Z * Z))
    (windows : list Z) (st : window_state) :
  Forall (Forall (fun i => (i < length nz)%nat)) (left_lane_inds st) ->
  Forall (Forall (fun i => (i < length nz)%nat)) (right_lane_inds st) ->
  let final := fold_left (window_step shape0 window_height nz) windows st in
  Forall (Forall (fun i => (i < length nz)%nat)) (left_lane_inds final)
  /\ Forall (Forall (fun i => (i < length nz)%nat)) (right_lane_inds final).
Proof.
  revert st. induction windows as [| w ws IH]; intros st Hl Hr; simpl.
  - split; assumption.
  - apply IH; unfold window_step; cbn [left_lane_inds right_lane_inds];
      apply Forall_app; (split; [assumption |]);
      (constructor; [apply good_inds_bound | constructor]).
Qed.

Lemma take_pairs (nz : list (Z * Z)) (inds : list nat) :
  Forall (fun i => (i < length nz)%nat) inds ->
  forall p, In p (combine (Np.take (map fst nz) inds) (Np.take (map snd nz) inds)) ->
            In p nz.
Proof.
  induction inds as [| i inds IH]; intros Hb p Hp; [destruct Hp |].
  inversion Hb as [| ? ? Hi Hrest]; subst. simpl in Hp. destruct Hp as [<- | Hp].
  - assert (E1 : nth i (map fst nz) 0 = fst (nth i nz (0, 0)))
      by apply (map_nth fst nz (0, 0)).
    assert (E2 : nth i (map snd nz) 0 = snd (nth i nz (0, 0)))
      by apply (map_nth snd nz (0, 0)).
    rewrite E1, E2, <- surjective_pairing. apply nth_In. exact Hi.
  - apply IH; assumption.
Qed.

Lemma Forall_concat {A : Type} (P : A -> Prop) (ll : list (list A)) :
  Forall (Forall P) ll -> Forall P (concat ll).
Proof.
  induction 1 as [| l ll Hl _ IH]; simpl; [constructor |].
  apply Forall_app. split; assumption.
Qed.

(** X3: the pixels the window search returns are nonzero entries of the
    module-level array [warped_binary], whatever mask it was called on. *)
Lemma sliding_window_search_source (G m : Np.ndarray) (co : Z) (px : pixels) :
  sliding_window_search G m = Ok (co, px) ->
  forall p, In p (combine (lefty px) (leftx px))
            \/ In p (combine (righty px) (rightx px)) ->
            In p (Np.nonzero G).
Proof.
  unfold sliding_window_search. intros H. bind_inv H. bind_inv H. bind_inv H.
  match type of H with (if ?c then _ else _) = _ => destruct c end;
    [| discriminate].
  apply ok_pair in H. destruct H as [_ <-].
  cbn [leftx lefty rightx righty].
  match goal with |- context [fold_left ?f ?ws ?st] =>
    pose proof (window_loop_bound (Np.shape0 m)
                  (Z.quot (Np.shape0 G) nwindows) (Np.nonzero G) ws st
                  (Forall_nil _) (Forall_nil _)) as Hb
  end.
  cbv zeta in Hb. destruct Hb as [Hl Hr].
  intros p [Hp | Hp]; eapply take_pairs; try exact Hp;
    apply Forall_concat; assumption.
Qed.

(** ** C4: one band of the window search *)

(** C4, evaluated on the mask [short_dash] (as argument and as the
    module-level array): its only active pixels are 17 pixels of the bottom
    row.  The histogram seeds the left line at column 0 and the right line
    at column 20.  The first band collects, for the left line, the 51
    nonzero entries of those 17 pixels (one per channel) and, 51 being more
    than [minpix], moves the left centre to column 8, although only 17
    pixels were collected. *)
Theorem C4_recentres_on_17_pixels :
  let nz := Np.nonzero short_dash in
  let histogram := Np.sum_axis0 40 (skipn 4 (single_plane short_dash)) in
  let st0 := {| leftx_current := 0; rightx_current := 20;
                left_lane_inds := []; right_lane_inds := [] |} in
  let st1 := window_step (Np.shape0 short_dash)
               (Z.quot (Np.shape0 short_dash) nwindows) nz st0 0 in
  Np.argmax (firstn 20 histogram) = Ok 0
  /\ Np.argmax (skipn 20 histogram) = Ok 0
  /\ left_lane_inds st1 = [seq 0 51]
  /\ length (distinct_positions nz (seq 0 51)) = 17%nat
  /\ (17 <=? minpix) = true
  /\ leftx_current st1 = 8
  /\ exists px, sliding_window_search short_dash short_dash = Ok (-10, px)
                /\ length (leftx px) = 51%nat.
Proof.
  cbv zeta. repeat split; try (vm_compute; reflexivity).
  eexists. split; vm_compute; reflexivity.
Qed.

(** ** C8: what the searches depend on *)

(** C8, evaluated: called twice on the same mask [two_lines], once with
    the module-level [warped_binary] equal to that mask and once with it
    all zero, [sliding_window] attributes 54 entries to the left line the
    first time and none the second. *)
Theorem C8_window_search_reads_module_array :
  exists px1 px2,
    sliding_window_search two_lines two_lines = Ok (-1, px1)
    /\ sliding_window_search (blank 9 8) two_lines = Ok (-1, px2)
    /\ length (leftx px1) = 54%nat
    /\ length (rightx px1) = 54%nat
    /\ leftx px2 = [] /\ rightx px2 = [].
Proof.
  eexists; eexists.
  split; [vm_compute; reflexivity |]. split; [vm_compute; reflexivity |].
  repeat split.
Qed.

(** ** The per-frame driver *)

Section Tracker.

Variable lstsq : list Z -> list Z -> float64 * float64 * float64.

Lemma all_zero_false (y : list Z) :
  forallb (Z.eqb 0) y = false <-> exists y0, In y0 y /\ y0 <> 0.
Proof.
  induction y as [| v y IH]; cbn [forallb In].
  - split; [discriminate | intros [y0 [[] _]]].
  - destruct (Z.eqb_spec 0 v) as [<- | Hv]; cbn [andb].
    + rewrite IH. split.
      * intros [y0 [Hin Hy]]. exists y0. auto.
      * intros [y0 [[<- | Hin] Hy]]; [contradiction | exists y0; auto].
    + split; [| reflexivity]. intros _. exists v. split; [auto | congruence].
Qed.

(** What [np.polyfit] needs to return: a sample with an abscissa that is
    not zero, and as many ordinates as abscissae. *)
Lemma polyfit_inv (y x : list Z) (f : fit) :
  polyfit lstsq y x = Ok f ->
  (exists y0, In y0 y /\ y0 <> 0)
  /\ length y = length x
  /\ f = coefficients (lstsq y x).
Proof.
  unfold polyfit. destruct y as [| y0 y]; [discriminate |].
  destruct (Nat.eqb (length (y0 :: y)) (length x)) eqn:El; [| discriminate].
  destruct (forallb (Z.eqb 0) (y0 :: y)) eqn:Ez; [discriminate |].
  intros H. injection H as <-. apply Nat.eqb_eq in El.
  apply all_zero_false in Ez. auto.
Qed.

Lemma polyfit_ok (y x : list Z) (f : fit) :
  polyfit lstsq y x = Ok f -> y <> [] /\ exists a b c, f = [a; b; c].
Proof.
  intros H. apply polyfit_inv in H. destruct H as [[y0 [Hin _]] [_ ->]].
  split; [intros ->; contradiction | unfold coefficients; eauto].
Qed.


(** A sample of rows that are all zero, the empty one among them, makes
    [np.polyfit] raise. *)
Lemma polyfit_raises (y x : list Z) :
  ~ (exists y0, In y0 y /\ y0 <> 0) ->
  exists e, polyfit lstsq y x = Raise e.
Proof.
  intros Hy. unfold polyfit.
  destruct y as [| y0 y]; [eexists; reflexivity |].
  destruct (Nat.eqb (length (y0 :: y)) (length x)); [| eexists; reflexivity].
  destruct (forallb (Z.eqb 0) (y0 :: y)) eqn:Ez; [eexists; reflexivity |].
  apply all_zero_false in Ez. contradiction.
Qed.

Lemma compress_map {A : Type} (f : A -> bool) (g : A -> Z) (nz : list A) :
  Np.compress (map f nz) (map g nz) = map g (filter f nz).
Proof.
  induction nz as [| p nz IH]; simpl; [reflexivity |].
  destruct (f p); simpl; rewrite IH; reflexivity.
Qed.




Lemma fit_lines_raises (co : Z) (px : pixels) :
  ~ (exists y, In y (lefty px) /\ y <> 0)
  \/ ~ (exists y, In y (righty px) /\ y <> 0) ->
  exists e, fit_lines lstsq co px = Raise e.
Proof.
  intros H. unfold fit_lines.
  destruct (polyfit lstsq (lefty px) (leftx px)) as [lf | e] eqn:El;
    [| eexists; reflexivity].
  cbn [bind].
  destruct (polyfit lstsq (righty px) (rightx px)) as [rf | e] eqn:Er;
    [| eexists; reflexivity].
  apply polyfit_inv in El, Er.
  destruct El as [Hl _], Er as [Hr _]. destruct H; contradiction.
Qed.


(** A frame that starts with the flag [True] runs the targeted search and
    nothing else. *)
Lemma process_image_tracking_log (g : globals) (mask : Np.ndarray) :
  lanes_detected g = Some true ->
  snd (fst (process_image lstsq g mask)) = [TargetedSearch].
Proof.
  intros H. unfold process_image. rewrite H. cbv beta iota. rewrite H.
  destruct (subsequent_frame lstsq mask (left_fit g) (right_fit g))
    as [[[[d off] lf] rf] | e]; reflexivity.
Qed.

(** A frame that starts with the flag [None] runs the window search first. *)
Lemma process_image_searching_log (g : globals) (mask : Np.ndarray) :
  lanes_detected g = None ->
  exists rest, snd (fst (process_image lstsq g mask)) = WindowSearch :: rest.
Proof.
  intros H. unfold process_image. rewrite H.
  destruct (sliding_window lstsq (warped_binary g) mask)
    as [[[[d off] lf] rf] | e]; [| eexists; reflexivity].
  cbn [set_tracking lanes_detected left_fit right_fit].
  destruct d; [| eexists; reflexivity].
  destruct (subsequent_frame lstsq mask lf rf) as [[[[d' off'] lf'] rf'] | e];
    eexists; reflexivity.
Qed.

(** A frame that starts with the flag [False] runs no search: it resets
    the flag and returns the undistorted image. *)
Lemma process_image_failed_flag (g : globals) (mask : Np.ndarray) :
  lanes_detected g = Some false ->
  process_image lstsq g mask = (reset_detected g, [], Ok Undistorted).
Proof.
  intros H. unfold process_image. rewrite H. cbv beta iota. rewrite H.
  reflexivity.
Qed.

(** A frame whose window search fails validation resets the flag in the
    same call, so the next frame runs the window search again. *)
Lemma process_image_window_failure (g : globals) (mask : Np.ndarray)
    (off : Z) (lf rf : fit) :
  lanes_detected g = None ->
  sliding_window lstsq (warped_binary g) mask = Ok (false, off, lf, rf) ->
  process_image lstsq g mask =
    ({| lanes_detected := None; left_fit := lf; right_fit := rf;
        warped_binary := warped_binary g |}, [WindowSearch], Ok Undistorted).
Proof. intros H Hs. unfold process_image. rewrite H, Hs. reflexivity. Qed.

(** ** C10: the frame that finds the lanes *)



End Tracker.



(** ** C2: the all-zero mask *)

Lemma flat_map_nil {A B : Type} (f : A -> list B) (l : list A) :
  (forall a, In a l -> f a = []) -> flat_map f l = [].
Proof.
  induction l as [| a l IH]; intros H; simpl; [reflexivity |].
  rewrite (H a (or_introl eq_refl)), IH; [reflexivity |].
  intros b Hb. apply H. right. exact Hb.
Qed.

Lemma nonzero_blank (h w : nat) : Np.nonzero (blank h w) = [].
Proof.
  unfold blank, Np.nonzero, Np.enumerate.
  apply flat_map_nil. intros [y row] Hrow.
  apply in_combine_r, repeat_spec in Hrow. subst row.
  apply flat_map_nil. intros [x px] Hpx.
  apply in_combine_r, repeat_spec in Hpx. subst px. reflexivity.
Qed.

(** Both halves of the histogram of an all-zero mask have a first maximum. *)
Lemma blank_bases (h w : nat) :
  (1 <= h)%nat -> (2 <= w)%nat ->
  let single_channel := single_plane (blank h w) in
  let histogram :=
    Np.sum_axis0 (length (hd [] single_channel))
      (skipn (Z.to_nat (Z.quot (Z.of_nat (length single_channel)) 2)) single_channel) in
  let midpoint := Z.quot (Z.of_nat (length histogram)) 2 in
  exists l r, Np.argmax (firstn (Z.to_nat midpoint) histogram) = Ok l
              /\ Np.argmax (skipn (Z.to_nat midpoint) histogram) = Ok r.
Proof.
  intros Hh Hw. cbv zeta. rewrite !half_nat. apply halves_argmax.
  rewrite sum_axis0_length.
  destruct h as [| h']; [lia |]. simpl.
  rewrite length_map, repeat_length. exact Hw.
Qed.

Lemma subsequent_frame_search_blank (h w : nat) (l0 l1 l2 r0 r1 r2 : float64) :
  (1 <= h)%nat -> (2 <= w)%nat ->
  exists co,
    subsequent_frame_search (blank h w) [l0; l1; l2] [r0; r1; r2]
      = Ok (co, no_pixels).
Proof.
  intros Hh Hw. destruct (blank_bases h w Hh Hw) as [l [r [Hl Hr]]].
  unfold subsequent_frame_search. rewrite nonzero_blank.
  change (if 2 <? Np.ndim (blank h w) then Np.channel0 (blank h w)
          else Ok (Np.plane (blank h w)))
    with (Ok (A := list (list Z)) (single_plane (blank h w))).
  cbn [bind]. cbv zeta in Hl, Hr |- *. rewrite Hl. cbn [bind]. rewrite Hr.
  eexists. reflexivity.
Qed.

Lemma window_loop_empty (shape0 window_height : Z) (windows : list Z)
    (st : window_state) :
  let final := fold_left (window_step shape0 window_height []) windows st in
  concat (left_lane_inds final) = concat (left_lane_inds st)
  /\ concat (right_lane_inds final) = concat (right_lane_inds st).
Proof.
  revert st. induction windows as [| w ws IH]; intros st; simpl.
  - split; reflexivity.
  - destruct (IH (window_step shape0 window_height [] st w)) as [Hl Hr].
    cbv zeta in Hl, Hr. rewrite Hl, Hr.
    unfold window_step. cbn [left_lane_inds right_lane_inds].
    rewrite !concat_app. cbn. rewrite !app_nil_r. split; reflexivity.
Qed.

Lemma sliding_window_search_blank (h' w' h w : nat) :
  (1 <= h)%nat -> (2 <= w)%nat ->
  exists co,
    sliding_window_search (blank h' w') (blank h w) = Ok (co, no_pixels).
Proof.
  intros Hh Hw. destruct (blank_bases h w Hh Hw) as [l [r [Hl Hr]]].
  unfold sliding_window_search. rewrite nonzero_blank.
  change (Np.channel0 (blank h w))
    with (Ok (A := list (list Z)) (single_plane (blank h w))).
  cbn [bind]. cbv zeta in Hl, Hr |- *. rewrite Hl. cbn [bind]. rewrite Hr.
  cbn [bind map].
  match goal with |- context [fold_left ?f ?ws ?st] =>
    destruct (window_loop_empty (Np.shape0 (blank h w))
                (Z.quot (Np.shape0 (blank h' w')) nwindows) ws st) as [El Er]
  end.
  cbv zeta in El, Er. rewrite El, Er.
  cbn [left_lane_inds right_lane_inds concat Np.take map leftx rightx lefty
       righty app forallb andb].
  eexists. reflexivity.
Qed.

Section BlankFrames.

Variable lstsq : list Z -> list Z -> float64 * float64 * float64.

(** In the searching state, with an all-zero module-level array, a frame
    whose mask is all zero raises in the window search. *)
Lemma process_image_blank_searching (g : globals) (h' w' h w : nat) :
  (1 <= h)%nat -> (2 <= w)%nat ->
  lanes_detected g = None ->
  warped_binary g = blank h' w' ->
  process_image lstsq g (blank h w) = (g, [WindowSearch], Raise TypeError).
Proof.
  intros Hh Hw Hg HG.
  destruct (sliding_window_search_blank h' w' h w Hh Hw) as [co Hs].
  unfold process_image. rewrite Hg, HG.
  unfold sliding_window. rewrite Hs. reflexivity.
Qed.

(** In the tracking state a frame whose mask is all zero raises in the
    fit of the targeted search and leaves the globals as they were. *)
Lemma process_image_blank_tracking (g : globals) (h w : nat)
    (l0 l1 l2 r0 r1 r2 : float64) :
  (1 <= h)%nat -> (2 <= w)%nat ->
  lanes_detected g = Some true ->
  left_fit g = [l0; l1; l2] ->
  right_fit g = [r0; r1; r2] ->
  (exists co, subsequent_frame_search (blank h w) (left_fit g) (right_fit g)
                = Ok (co, no_pixels))
  /\ subsequent_frame lstsq (blank h w) (left_fit g) (right_fit g)
     = Raise TypeError
  /\ process_image lstsq g (blank h w) = (g, [TargetedSearch], Raise TypeError).
Proof.
  intros Hh Hw Hg Hl Hr.
  destruct (subsequent_frame_search_blank h w l0 l1 l2 r0 r1 r2 Hh Hw) as [co Hs].
  rewrite Hl, Hr.
  assert (Hraise : subsequent_frame lstsq (blank h w) [l0; l1; l2] [r0; r1; r2]
                   = Raise TypeError).
  { unfold subsequent_frame. rewrite Hs. reflexivity. }
  split; [exists co; exact Hs |]. split; [exact Hraise |].
  unfold process_image. rewrite Hg. cbv beta iota. rewrite Hg, Hl, Hr, Hraise.
  reflexivity.
Qed.

(** C2, on the code: in the tracking state a frame whose mask is all zero
    does not come back with a pair of invalid fits and the tracker set to
    searching.  Both pixel sets are empty, [np.polyfit] raises [TypeError]
    on the first of them, the exception leaves [process_image], and the
    globals stay as they were: the flag is still [True]. *)
Theorem C2_blank_mask_raises (g : globals) (h w : nat)
    (l0 l1 l2 r0 r1 r2 : float64) :
  (1 <= h)%nat -> (2 <= w)%nat ->
  lanes_detected g = Some true ->
  left_fit g = [l0; l1; l2] ->
  right_fit g = [r0; r1; r2] ->
  (exists co, subsequent_frame_search (blank h w) (left_fit g) (right_fit g)
                = Ok (co, no_pixels))
  /\ subsequent_frame lstsq (blank h w) (left_fit g) (right_fit g)
     = Raise TypeError
  /\ process_image lstsq g (blank h w) = (g, [TargetedSearch], Raise TypeError)
  /\ lanes_detected (fst (fst (process_image lstsq g (blank h w)))) = Some true.
Proof.
  intros Hh Hw Hg Hl Hr.
  destruct (process_image_blank_tracking g h w l0 l1 l2 r0 r1 r2 Hh Hw Hg Hl Hr)
    as [Hs [Hraise Hp]].
  split; [exact Hs |]. split; [exact Hraise |]. split; [exact Hp |].
  rewrite Hp. exact Hg.
Qed.

End BlankFrames.

Lemma C2_blank_mask_raises_witness :
  process_image normal_equations_fit tracking_globals (blank 1 302)
  = (tracking_globals, [TargetedSearch], Raise TypeError).
Proof.
  apply (C2_blank_mask_raises normal_equations_fit tracking_globals 1 302
           0 0 0 0 0 300); try reflexivity; lia.
Defined.

(** ** Curvature *)

Section Curvature.

Local Open Scope R_scope.

Variable lstsq : list R -> list R -> R * R * R.

Lemma amax_from (n : nat) (k : nat) :
  fold_left Rmax (map IZR (map Z.of_nat (seq (S k) n))) (IZR (Z.of_nat k))
  = IZR (Z.of_nat (k + n)).
Proof.
  revert k. induction n as [| n IH]; intros k; simpl.
  - rewrite Nat.add_0_r. reflexivity.
  - rewrite Rmax_right by (apply IZR_le; lia).
    change (Z.pos (Pos.of_succ_nat k)) with (Z.of_nat (S k)).
    rewrite IH. do 2 f_equal. lia.
Qed.

(** [np.max] of [np.linspace(0, h-1, h)] is [h-1], the bottom row. *)
Lemma amax_linspace (h : nat) :
  (1 <= h)%nat ->
  Geometry.amax (map IZR (Np.linspace (Z.of_nat h)))
  = Ok (IZR (Z.of_nat h - 1)).
Proof.
  intros Hh. unfold Np.linspace. rewrite Nat2Z.id.
  destruct h as [| n]; [lia |]. simpl seq. cbn [map Geometry.amax].
  change (IZR 0) with (IZR (Z.of_nat 0)). rewrite amax_from.
  do 2 f_equal. lia.
Qed.

Lemma numerator_pos (t : R) : 0 < Rpower (1 + t ^ 2) 1.5.
Proof. unfold Rpower. apply exp_pos. Qed.

(** The radius expression: the quotient when the leading coefficient is
    not zero, plus infinity when it is. *)
Lemma curverad_nonzero (c0 c1 c2 y : R) :
  c0 <> 0 ->
  Geometry.curverad (c0, c1, c2) y
  = Geometry.Fin (Rpower (1 + (2 * c0 * y + c1) ^ 2) 1.5 / Rabs (2 * c0)).
Proof.
  intros Hc. unfold Geometry.curverad, Geometry.fdiv.
  destruct (Req_dec_T (Rabs (2 * c0)) 0) as [E | _]; [| reflexivity].
  exfalso. revert E. apply Rabs_no_R0. lra.
Qed.

Lemma curverad_zero (c1 c2 y : R) :
  Geometry.curverad (0, c1, c2) y = Geometry.PInf.
Proof.
  unfold Geometry.curverad, Geometry.fdiv.
  replace (2 * 0) with 0 by lra. rewrite Rabs_R0.
  destruct (Req_dec_T 0 0) as [_ | N]; [| contradiction].
  match goal with |- context [Rlt_dec 0 ?n] =>
    destruct (Rlt_dec 0 n) as [_ | N]
  end; [reflexivity |].
  exfalso. apply N. apply numerator_pos.
Qed.

Lemma curverad_pos_or_inf (c : R * R * R) (y : R) :
  (exists r, Geometry.curverad c y = Geometry.Fin r)
  \/ Geometry.curverad c y = Geometry.PInf.
Proof.
  destruct c as [[c0 c1] c2].
  destruct (Req_dec_T c0 0) as [-> | Hc].
  - right. apply curverad_zero.
  - left. eexists. apply curverad_nonzero. exact Hc.
Qed.

Lemma all_zeroR_false (y : list R) :
  forallb (fun v => if Req_dec_T v 0 then true else false) y = false
  <-> exists v, In v y /\ v <> 0.
Proof.
  induction y as [| v y IH]; cbn [forallb In].
  - split; [discriminate | intros [y0 [[] _]]].
  - destruct (Req_dec_T v 0) as [-> | Hv]; cbn [andb].
    + rewrite IH. split.
      * intros [y0 [Hin Hy]]. exists y0. auto.
      * intros [y0 [[<- | Hin] Hy]]; [contradiction | exists y0; auto].
    + split; [| reflexivity]. intros _. exists v. split; [auto | exact Hv].
Qed.

Lemma polyfit_sample (y x : list R) :
  (exists v, In v y /\ v <> 0) -> length y = length x ->
  Geometry.polyfit lstsq y x = Ok (lstsq y x).
Proof.
  intros Hy Hxy. unfold Geometry.polyfit.
  destruct y as [| y0 y]; [destruct Hy as [? [[] _]] |].
  rewrite Hxy, Nat.eqb_refl.
  apply all_zeroR_false in Hy. rewrite Hy. reflexivity.
Qed.

(** From two rows on, the rows of an image are not all zero, in pixels
    or in any unit. *)
Lemma rows_not_all_zero (h : nat) (k : R) :
  (2 <= h)%nat -> k <> 0 ->
  exists v,
    In v (map (fun y => y * k) (map IZR (Np.linspace (Z.of_nat h))))
    /\ v <> 0.
Proof.
  intros Hh Hk. exists (IZR (Z.of_nat 1) * k). split.
  - apply (in_map (fun y => y * k)). apply in_map.
    unfold Np.linspace. rewrite Nat2Z.id. apply in_map.
    apply in_seq. lia.
  - simpl. lra.
Qed.

Lemma rows_not_all_zero_px (h : nat) :
  (2 <= h)%nat ->
  exists v, In v (map IZR (Np.linspace (Z.of_nat h))) /\ v <> 0.
Proof.
  intros Hh. exists (IZR (Z.of_nat 1)). split.
  - apply in_map. unfold Np.linspace. rewrite Nat2Z.id. apply in_map.
    apply in_seq. lia.
  - simpl. lra.
Qed.

(** [calculate_curvature] on the rows of an image of height [h]. *)
Lemma calculate_curvature_rows (midoffset : Z) (leftx rightx : list R) (h : nat) :
  (2 <= h)%nat ->
  length leftx = h ->
  length rightx = h ->
  let ploty := map IZR (Np.linspace (Z.of_nat h)) in
  let y0 := IZR (Z.of_nat h - 1) in
  let metres := map (fun y => y * Geometry.ym_per_pix) ploty in
  let left_cr := lstsq metres (map (fun x => x * Geometry.xm_per_pix) leftx) in
  let right_cr := lstsq metres (map (fun x => x * Geometry.xm_per_pix) rightx) in
  let km v := Geometry.fmap Geometry.round1 (Geometry.fmap (fun r => r / 1000) v) in
  Geometry.calculate_curvature lstsq midoffset leftx rightx ploty
  = Ok (Geometry.round1 (100 * IZR midoffset * Geometry.xm_per_pix),
        Geometry.fmap (fun s => 0.5 * s)
          (Geometry.fadd
             (km (Geometry.curverad right_cr (y0 * Geometry.ym_per_pix)))
             (km (Geometry.curverad left_cr (y0 * Geometry.ym_per_pix))))).
Proof.
  intros Hh Hl Hr. cbv zeta. unfold Geometry.calculate_curvature.
  assert (Hym : Geometry.ym_per_pix <> 0) by (unfold Geometry.ym_per_pix; lra).
  rewrite !(polyfit_sample (map IZR (Np.linspace (Z.of_nat h))))
    by (try apply (rows_not_all_zero_px h Hh);
        unfold Np.linspace; rewrite ?length_map, length_seq, Nat2Z.id; lia).
  cbn [bind]. rewrite (amax_linspace h) by lia. cbn [bind].
  rewrite !(polyfit_sample (map _ (map IZR (Np.linspace (Z.of_nat h)))))
    by (try apply (rows_not_all_zero h _ Hh Hym);
        unfold Np.linspace; rewrite ?length_map, length_seq, Nat2Z.id; lia).
  reflexivity.
Qed.

(** C6, as the code has it: on the rows 0 .. h-1 of an image of at
    least two rows (on a single row [np.polyfit] raises) the
    curvature [calculate_curvature] reports is half the sum of the two
    radii, each taken from its line's metric re-fit (A, B, _) at
    y0 = (h - 1) * ym_per_pix, the bottom row in metres, divided by 1000
    and rounded to one decimal before the two are added.  When neither
    leading coefficient is zero each radius is the number
    (1 + (2*A*y0 + B)^2)^1.5 / |2*A|. *)
Theorem C6_curvature_is_mean_of_rounded_radii (midoffset : Z)
    (leftx rightx : list R) (h : nat) :
  let ploty := map IZR (Np.linspace (Z.of_nat h)) in
  let y0 := IZR (Z.of_nat h - 1) * Geometry.ym_per_pix in
  let metres := map (fun y => y * Geometry.ym_per_pix) ploty in
  let left_cr := lstsq metres (map (fun x => x * Geometry.xm_per_pix) leftx) in
  let right_cr := lstsq metres (map (fun x => x * Geometry.xm_per_pix) rightx) in
  let rounded_km (v : Geometry.float) :=
    Geometry.fmap Geometry.round1 (Geometry.fmap (fun r => r / 1000) v) in
  let radius (c : R * R * R) :=
    Rpower (1 + (2 * fst (fst c) * y0 + snd (fst c)) ^ 2) 1.5
    / Rabs (2 * fst (fst c)) in
  (2 <= h)%nat ->
  length leftx = h ->
  length rightx = h ->
  exists position curvature,
    Geometry.calculate_curvature lstsq midoffset leftx rightx ploty
    = Ok (position, curvature)
    /\ curvature
       = Geometry.fmap (fun s => 0.5 * s)
           (Geometry.fadd (rounded_km (Geometry.curverad right_cr y0))
                          (rounded_km (Geometry.curverad left_cr y0)))
    /\ (fst (fst left_cr) <> 0 -> fst (fst right_cr) <> 0 ->
        curvature
        = Geometry.Fin (0.5 * (Geometry.round1 (radius right_cr / 1000)
                               + Geometry.round1 (radius left_cr / 1000)))).
Proof.
  cbv zeta. intros Hh Ll Lr.
  rewrite (calculate_curvature_rows midoffset leftx rightx h Hh Ll Lr). cbv zeta.
  eexists; eexists. split; [reflexivity |]. split; [reflexivity |].
  destruct (lstsq _ (map (fun x => x * Geometry.xm_per_pix) leftx))
    as [[a b] c].
  destruct (lstsq _ (map (fun x => x * Geometry.xm_per_pix) rightx))
    as [[a' b'] c'].
  cbn [fst snd]. intros Hl Hr.
  rewrite (curverad_nonzero a b c _ Hl), (curverad_nonzero a' b' c' _ Hr).
  reflexivity.
Qed.

(** A line whose metric fit has a zero leading coefficient makes the
    reported curvature infinite. *)
Lemma curvature_infinite (midoffset : Z)
    (leftx rightx : list R) (h : nat) :
  let ploty := map IZR (Np.linspace (Z.of_nat h)) in
  let metres := map (fun y => y * Geometry.ym_per_pix) ploty in
  let left_cr := lstsq metres (map (fun x => x * Geometry.xm_per_pix) leftx) in
  let right_cr := lstsq metres (map (fun x => x * Geometry.xm_per_pix) rightx) in
  (2 <= h)%nat ->
  length leftx = h ->
  length rightx = h ->
  fst (fst left_cr) = 0 \/ fst (fst right_cr) = 0 ->
  exists position,
    Geometry.calculate_curvature lstsq midoffset leftx rightx ploty
    = Ok (position, Geometry.PInf).
Proof.
  cbv zeta. intros Hh Ll Lr Hz.
  rewrite (calculate_curvature_rows midoffset leftx rightx h Hh Ll Lr). cbv zeta.
  eexists. f_equal. f_equal.
  destruct (lstsq _ (map (fun x => x * Geometry.xm_per_pix) leftx))
    as [[a b] c].
  destruct (lstsq _ (map (fun x => x * Geometry.xm_per_pix) rightx))
    as [[a' b'] c'].
  cbn [fst snd] in Hz.
  destruct Hz as [-> | ->]; rewrite curverad_zero.
  - destruct (curverad_pos_or_inf (a', b', c')
                (IZR (Z.of_nat h - 1) * Geometry.ym_per_pix)) as [[r ->] | ->];
      reflexivity.
  - destruct (curverad_pos_or_inf (a, b, c)
                (IZR (Z.of_nat h - 1) * Geometry.ym_per_pix)) as [[r ->] | ->];
      reflexivity.
Qed.

(** C7, as the code has it: when the metric fit of either line has a
    leading coefficient equal to zero, [calculate_curvature] divides by
    |2*A| = 0 all the same; the quotient is plus infinity, and so is the
    curvature it reports. *)
Theorem C7_zero_coefficient_divides_by_zero (midoffset : Z)
    (leftx rightx : list R) (h : nat) :
  let ploty := map IZR (Np.linspace (Z.of_nat h)) in
  let metres := map (fun y => y * Geometry.ym_per_pix) ploty in
  let left_cr := lstsq metres (map (fun x => x * Geometry.xm_per_pix) leftx) in
  let right_cr := lstsq metres (map (fun x => x * Geometry.xm_per_pix) rightx) in
  (2 <= h)%nat ->
  length leftx = h ->
  length rightx = h ->
  fst (fst left_cr) = 0 \/ fst (fst right_cr) = 0 ->
  (fst (fst left_cr) = 0 ->
     Geometry.curverad left_cr (IZR (Z.of_nat h - 1) * Geometry.ym_per_pix)
     = Geometry.fdiv
         (Rpower (1 + (2 * 0 * (IZR (Z.of_nat h - 1) * Geometry.ym_per_pix)
                       + snd (fst left_cr)) ^ 2) 1.5) 0)
  /\ (fst (fst right_cr) = 0 ->
     Geometry.curverad right_cr (IZR (Z.of_nat h - 1) * Geometry.ym_per_pix)
     = Geometry.fdiv
         (Rpower (1 + (2 * 0 * (IZR (Z.of_nat h - 1) * Geometry.ym_per_pix)
                       + snd (fst right_cr)) ^ 2) 1.5) 0)
  /\ exists position,
       Geometry.calculate_curvature lstsq midoffset leftx rightx ploty
       = Ok (position, Geometry.PInf).
Proof.
  cbv zeta. intros Hh Ll Lr Hz.
  split; [| split].
  - destruct (lstsq _ (map (fun x => x * Geometry.xm_per_pix) leftx))
      as [[a b] c]. cbn [fst snd]. intros ->.
    unfold Geometry.curverad. replace (2 * 0) with 0 by lra.
    rewrite Rabs_R0. reflexivity.
  - destruct (lstsq _ (map (fun x => x * Geometry.xm_per_pix) rightx))
      as [[a b] c]. cbn [fst snd]. intros ->.
    unfold Geometry.curverad. replace (2 * 0) with 0 by lra.
    rewrite Rabs_R0. reflexivity.
  - apply (curvature_infinite midoffset leftx rightx h Hh Ll Lr Hz).
Qed.

End Curvature.

(** ** Rounding, and powers *)

Section Rounding.

Local Open Scope R_scope.

Lemma floorR_eq (r : R) (z : Z) :
  IZR z <= r < IZR z + 1 -> Geometry.floorR r = z.
Proof.
  intros [Hlo Hhi]. unfold Geometry.floorR.
  assert (E : (z + 1)%Z = up r).
  { apply tech_up; rewrite plus_IZR; lra. }
  rewrite <- E. lia.
Qed.

Lemma round1_below (r : R) (z : Z) :
  IZR z <= r * 10 < IZR z + 1 / 2 -> Geometry.round1 r = IZR z / 10.
Proof.
  intros [Hlo Hhi]. unfold Geometry.round1, Geometry.round_half_even.
  rewrite (floorR_eq (r * 10) z) by lra.
  destruct (Rlt_dec (r * 10 - IZR z) (1 / 2)) as [_ | N]; [reflexivity |].
  exfalso. apply N. lra.
Qed.

Lemma round1_above (r : R) (z : Z) :
  IZR z + 1 / 2 < r * 10 < IZR z + 1 -> Geometry.round1 r = IZR (z + 1) / 10.
Proof.
  intros [Hlo Hhi]. unfold Geometry.round1, Geometry.round_half_even.
  rewrite (floorR_eq (r * 10) z) by lra.
  destruct (Rlt_dec (r * 10 - IZR z) (1 / 2)) as [L | _]; [lra |].
  destruct (Rlt_dec (1 / 2) (r * 10 - IZR z)) as [_ | N]; [reflexivity |].
  exfalso. apply N. lra.
Qed.

Lemma Rpower_three_halves (x : R) : 0 < x -> Rpower x 1.5 = x * sqrt x.
Proof.
  intros Hx. replace 1.5 with (1 + / 2) by lra.
  rewrite Rpower_plus, Rpower_1, Rpower_sqrt by exact Hx. reflexivity.
Qed.

Lemma Rpower_three_halves_bounds (x : R) :
  1 <= x -> x <= Rpower x 1.5 <= x * x.
Proof.
  intros Hx. split.
  - rewrite <- (Rpower_1 x) at 1 by lra. apply Rle_Rpower; lra.
  - replace (x * x) with (Rpower x (INR 2)).
    + apply Rle_Rpower; [exact Hx | simpl; lra].
    + rewrite Rpower_pow by lra. simpl. lra.
Qed.

End Rounding.

(** ** The measurement on an image three rows high *)

Section ThreeRows.

Local Open Scope R_scope.

(** Through three points with distinct abscissae the least-squares
    parabola is the one that passes through them. *)
Lemma normal_equations_three_points (y0 y1 y2 x0 x1 x2 a b c : R) :
  y0 <> y1 -> y0 <> y2 -> y1 <> y2 ->
  x0 = a * y0 ^ 2 + b * y0 + c ->
  x1 = a * y1 ^ 2 + b * y1 + c ->
  x2 = a * y2 ^ 2 + b * y2 + c ->
  normal_equations [y0; y1; y2] [x0; x1; x2] = (a, b, c).
Proof.
  intros H01 H02 H12 -> -> ->.
  unfold normal_equations. cbv zeta.
  set (ones := map (fun _ : R => 1) [y0; y1; y2]).
  set (d := det3R (power_sumR 4 [y0; y1; y2] ones)
              (power_sumR 3 [y0; y1; y2] ones) (power_sumR 2 [y0; y1; y2] ones)
              (power_sumR 3 [y0; y1; y2] ones) (power_sumR 2 [y0; y1; y2] ones)
              (power_sumR 1 [y0; y1; y2] ones) (power_sumR 2 [y0; y1; y2] ones)
              (power_sumR 1 [y0; y1; y2] ones) (power_sumR 0 [y0; y1; y2] ones)).
  assert (Hd : d = ((y0 - y1) * (y0 - y2) * (y1 - y2)) ^ 2).
  { unfold d, ones, det3R, power_sumR. simpl. ring. }
  assert (Hnz : d <> 0).
  { rewrite Hd. apply pow_nonzero.
    repeat apply Rmult_integral_contrapositive_currified; lra. }
  f_equal; [f_equal |].
  - apply (Rmult_eq_reg_r d); [| exact Hnz].
    unfold Rdiv. rewrite Rmult_assoc, Rinv_l, Rmult_1_r by exact Hnz.
    rewrite Hd. unfold ones, det3R, power_sumR. simpl. ring.
  - apply (Rmult_eq_reg_r d); [| exact Hnz].
    unfold Rdiv. rewrite Rmult_assoc, Rinv_l, Rmult_1_r by exact Hnz.
    rewrite Hd. unfold ones, det3R, power_sumR. simpl. ring.
  - apply (Rmult_eq_reg_r d); [| exact Hnz].
    unfold Rdiv. rewrite Rmult_assoc, Rinv_l, Rmult_1_r by exact Hnz.
    rewrite Hd. unfold ones, det3R, power_sumR. simpl. ring.
Qed.

(** The metric re-fit of the sample [metric_parabola a] is x = a * y^2. *)
Lemma three_rows_fit (a : R) :
  normal_equations
    (map (fun y => y * Geometry.ym_per_pix)
         (map IZR (Np.linspace (Z.of_nat 3))))
    (map (fun x => x * Geometry.xm_per_pix) (metric_parabola a))
  = (a, 0, 0).
Proof.
  unfold metric_parabola, Np.linspace,
    Geometry.ym_per_pix, Geometry.xm_per_pix.
  cbn [Z.of_nat Pos.of_succ_nat Pos.succ Z.to_nat Pos.to_nat Pos.iter_op
       Nat.add seq map].
  apply normal_equations_three_points; simpl; try lra; field.
Qed.

Lemma metric_parabola_length (a : R) : length (metric_parabola a) = 3%nat.
Proof. reflexivity. Qed.

(** What [calculate_curvature] computes on the two samples
    [metric_parabola al] and [metric_parabola ar], with the bottom row at
    2 * ym_per_pix = 1/12 m. *)
Lemma calculate_curvature_three_rows (midoffset : Z) (al ar : R) :
  let km v :=
    Geometry.fmap Geometry.round1 (Geometry.fmap (fun r => r / 1000) v) in
  Geometry.calculate_curvature normal_equations midoffset
    (metric_parabola al) (metric_parabola ar)
    (map IZR (Np.linspace (Z.of_nat 3)))
  = Ok (Geometry.round1 (100 * IZR midoffset * Geometry.xm_per_pix),
        Geometry.fmap (fun s => 0.5 * s)
          (Geometry.fadd
             (km (Geometry.curverad (ar, 0, 0) (1 / 12)))
             (km (Geometry.curverad (al, 0, 0) (1 / 12))))).
Proof.
  cbv zeta.
  rewrite (calculate_curvature_rows normal_equations midoffset
             (metric_parabola al) (metric_parabola ar) 3%nat)
    by (reflexivity || lia).
  cbv zeta. rewrite !three_rows_fit.
  replace (IZR (Z.of_nat 3 - 1) * Geometry.ym_per_pix) with (1 / 12)
    by (unfold Geometry.ym_per_pix; simpl; lra).
  reflexivity.
Qed.

(** With radii of 1040 m and 1140 m the notebook reports 1.05 km, the mean
    of 1.0 and 1.1; rounding the mean 1.09 once would give 1.1. *)
Lemma rounding_before_averaging_shows :
  (exists position,
     Geometry.calculate_curvature normal_equations 0
       (metric_parabola (1 / 2080)) (metric_parabola (1 / 2280))
       (map IZR (Np.linspace (Z.of_nat 3)))
     = Ok (position, Geometry.Fin 1.05))
  /\ Geometry.round1 (0.5 * (1040 / 1000 + 1140 / 1000)) = 1.1.
Proof.
  split.
  - rewrite calculate_curvature_three_rows. cbv zeta.
    eexists. f_equal. f_equal.
    rewrite !curverad_nonzero by lra.
    cbn [Geometry.fmap Geometry.fadd].
    rewrite !Rabs_pos_eq by lra.
    pose proof (Rpower_three_halves_bounds
                  (1 + (2 * (1 / 2280) * (1 / 12) + 0) ^ 2)) as Hr.
    pose proof (Rpower_three_halves_bounds
                  (1 + (2 * (1 / 2080) * (1 / 12) + 0) ^ 2)) as Hl.
    rewrite (round1_below _ 11) by (split; nra).
    rewrite (round1_below _ 10) by (split; nra).
    f_equal. lra.
  - rewrite (round1_above (0.5 * (1040 / 1000 + 1140 / 1000)) 10) by lra.
    simpl. lra.
Qed.

End ThreeRows.

Lemma C6_curvature_is_mean_of_rounded_radii_witness :
  let radius :=
    (Rpower (1 + (2 * 50 * (IZR (Z.of_nat 3 - 1) * Geometry.ym_per_pix) + 0) ^ 2)
       1.5
     / Rabs (2 * 50))%R in
  exists position,
    Geometry.calculate_curvature normal_equations 0
      (metric_parabola 50) (metric_parabola 50)
      (map IZR (Np.linspace (Z.of_nat 3)))
    = Ok (position,
          Geometry.Fin (0.5 * (Geometry.round1 (radius / 1000)
                               + Geometry.round1 (radius / 1000)))%R).
Proof.
  cbv zeta.
  destruct (C6_curvature_is_mean_of_rounded_radii normal_equations 0
              (metric_parabola 50) (metric_parabola 50)
              3%nat ltac:(lia) eq_refl eq_refl)
    as [position [curvature [Hc [_ Hfin]]]].
  exists position. rewrite Hc. f_equal. f_equal.
  rewrite !three_rows_fit in Hfin. cbn [fst snd] in Hfin.
  apply Hfin; lra.
Defined.

(** C6, counterexample to the claim as stated: an image three rows high
    whose two lines lie on the curve that is x = 50 * y^2 in metres, which
    the metric re-fit recovers.  The claim takes the radius at y0 = 2, the
    bottom row: (1 + 200^2)^1.5 / 100 m, 80.0 km once rounded, for both
    lines, so a curvature of 80.  The notebook evaluates the metric fit at
    2 * ym_per_pix = 1/12, where the radius is less than 50 m, and reports
    0.0. *)
Lemma C6_metric_fit_is_evaluated_in_metres :
  let h := 3%nat in
  let claimed_radius :=
    (Rpower (1 + (2 * 50 * IZR (Z.of_nat h - 1) + 0) ^ 2) 1.5
     / Rabs (2 * 50))%R in
  normal_equations
    (map (fun y => (y * Geometry.ym_per_pix)%R)
         (map IZR (Np.linspace (Z.of_nat h))))
    (map (fun x => (x * Geometry.xm_per_pix)%R) (metric_parabola 50))
  = (50, 0, 0)%R
  /\ (exists position,
        Geometry.calculate_curvature normal_equations 0
          (metric_parabola 50) (metric_parabola 50)
          (map IZR (Np.linspace (Z.of_nat h)))
        = Ok (position, Geometry.Fin 0))
  /\ (0.5 * (Geometry.round1 (claimed_radius / 1000)
             + Geometry.round1 (claimed_radius / 1000)) = 80)%R.
Proof.
  cbv zeta. split; [apply three_rows_fit |].
  assert (Habs : Rabs (2 * 50) = 100%R) by (rewrite Rabs_pos_eq; lra).
  split.
  - rewrite calculate_curvature_three_rows. cbv zeta.
    eexists. f_equal. f_equal.
    rewrite curverad_nonzero by lra.
    cbn [Geometry.fmap Geometry.fadd]. rewrite Habs.
    replace (1 + (2 * 50 * (1 / 12) + 0) ^ 2)%R with (634 / 9)%R by lra.
    pose proof (Rpower_three_halves_bounds (634 / 9) ltac:(lra)) as [Hlo Hhi].
    rewrite (round1_below (Rpower (634 / 9) 1.5 / 100 / 1000) 0)
      by (split; simpl; lra).
    f_equal. simpl. lra.
  - rewrite Habs.
    replace (1 + (2 * 50 * IZR (Z.of_nat 3 - 1) + 0) ^ 2)%R with 40001%R
      by (simpl; lra).
    rewrite Rpower_three_halves by lra.
    assert (Hlo : (200 <= sqrt 40001)%R).
    { rewrite <- (sqrt_lem_1 40000 200) by lra. apply sqrt_le_1; lra. }
    assert (Hhi : (sqrt 40001 <= 201 / 1000 * 1000)%R).
    { replace (201 / 1000 * 1000)%R with 201%R by lra.
      rewrite <- (sqrt_lem_1 40401 201) by lra. apply sqrt_le_1; lra. }
    assert (Hsq : (sqrt 40001 * sqrt 40001 = 40001)%R)
      by (apply sqrt_sqrt; lra).
    assert (Hhi' : (sqrt 40001 < 2001 / 10)%R) by nra.
    rewrite (round1_below (40001 * sqrt 40001 / 100 / 1000) 800)
      by (split; lra).
    lra.
Qed.

Lemma metric_parabola_zero : metric_parabola 0 = [0; 0; 0]%R.
Proof.
  unfold metric_parabola.
  rewrite (map_ext _ (fun _ => 0%R)) by (intros y; unfold Rdiv; ring).
  reflexivity.
Qed.

Lemma C7_zero_coefficient_divides_by_zero_witness :
  exists position,
    Geometry.calculate_curvature normal_equations 0 [0; 0; 0]%R [0; 0; 0]%R
      (map IZR (Np.linspace (Z.of_nat 3)))
    = Ok (position, Geometry.PInf).
Proof.
  rewrite <- metric_parabola_zero.
  apply (C7_zero_coefficient_divides_by_zero normal_equations 0
           (metric_parabola 0) (metric_parabola 0) 3%nat);
    [lia | reflexivity | reflexivity |].
  left. rewrite three_rows_fit. reflexivity.
Defined.

(** C7, counterexample to the claim as stated: an image three rows high
    whose two lines are the column 0 on every row.  The metric re-fit is
    x = 0, the divisor |2*A| is zero, the radius expression is the
    quotient by that zero, plus infinity, and the curvature reported for
    the frame is plus infinity: nothing is clamped and nothing marks the
    lane as straight. *)
Lemma C7_straight_line_radius_is_quotient_by_zero :
  let metres :=
    map (fun y => (y * Geometry.ym_per_pix)%R)
        (map IZR (Np.linspace (Z.of_nat 3))) in
  let fit_cr :=
    normal_equations metres
      (map (fun x => (x * Geometry.xm_per_pix)%R) [0; 0; 0]%R) in
  fit_cr = (0, 0, 0)%R
  /\ Rabs (2 * fst (fst fit_cr)) = 0%R
  /\ Geometry.curverad fit_cr (1 / 12)
     = Geometry.fdiv (Rpower (1 + (2 * 0 * (1 / 12) + 0) ^ 2) 1.5) 0
  /\ Geometry.curverad fit_cr (1 / 12) = Geometry.PInf
  /\ exists position,
       Geometry.calculate_curvature normal_equations 0 [0; 0; 0]%R [0; 0; 0]%R
         (map IZR (Np.linspace (Z.of_nat 3)))
       = Ok (position, Geometry.PInf).
Proof.
  cbv zeta. rewrite <- metric_parabola_zero. rewrite three_rows_fit.
  cbn [fst snd].
  assert (Hz : Rabs (2 * 0) = 0%R)
    by (replace (2 * 0)%R with 0%R by lra; apply Rabs_R0).
  split; [reflexivity |]. split; [exact Hz |]. split; [| split].
  - unfold Geometry.curverad. rewrite Hz. reflexivity.
  - apply curverad_zero.
  - rewrite calculate_curvature_three_rows. cbv zeta.
    rewrite curverad_zero. eexists. reflexivity.
Qed.


(** ** What holds of the searches and of the driver as they are *)

Lemma sliding_window_search_source_witness :
  exists px,
    sliding_window_search two_lines two_lines = Ok (-1, px)
    /\ In (8, 6) (combine (lefty px) (leftx px))
    /\ In (8, 6) (Np.nonzero two_lines).
Proof.
  assert (Hs : exists px,
             sliding_window_search two_lines two_lines = Ok (-1, px)
             /\ In (8, 6) (combine (lefty px) (leftx px))).
  { eexists. split; [vm_compute; reflexivity |].
    cbn [lefty leftx combine]. do 3 right. left. reflexivity. }
  destruct Hs as [px [Hs Hin]].
  exists px. split; [exact Hs |]. split; [exact Hin |].
  apply (sliding_window_search_source two_lines two_lines _ _ Hs (8, 6)).
  left. exact Hin.
Defined.

Lemma subsequent_frame_search_returns_witness :
  exists co px,
    subsequent_frame_search two_dots [0; 0; 0]%float [0; 0; 300]%float
    = Ok (co, px).
Proof.
  apply (subsequent_frame_search_returns two_dots 0 0 0 0 0 300).
  vm_compute. discriminate.
Defined.

(** An overlay is always drawn over the rows of the frame's mask, with one
    abscissa per row for each line: the samples [calculate_curvature] is
    given by [overlay_lane_lines] have the shape the curvature lemmas
    assume. *)
Lemma overlay_rows (lstsq : list Z -> list Z -> float64 * float64 * float64) (g g' : globals)
    (mask : Np.ndarray) (log : list search) (off : Z)
    (left_fitx right_fitx : list float64) (ploty : list Z) :
  process_image lstsq g mask
    = (g', log, Ok (Overlay off left_fitx right_fitx ploty)) ->
  ploty = Np.linspace (Np.shape0 mask)
  /\ length left_fitx = length ploty
  /\ length right_fitx = length ploty.
Proof.
  unfold process_image.
  destruct (lanes_detected g) as [[|] |] eqn:Hg.
  - rewrite Hg.
    destruct (subsequent_frame lstsq mask (left_fit g) (right_fit g))
      as [[[[d o] lf] rf] | e]; [| discriminate].
    intros H. injection H as _ _ H.
    bind_inv H. bind_inv H. injection H as <- <- <- <-.
    unfold fitx in E, E0. repeat bind_inv E. repeat bind_inv E0.
    injection E as <-. injection E0 as <-.
    rewrite !length_map. repeat split.
  - rewrite Hg. discriminate.
  - destruct (sliding_window lstsq (warped_binary g) mask)
      as [[[[d o] lf] rf] | e]; [| discriminate].
    cbn [set_tracking lanes_detected left_fit right_fit].
    destruct d; [| discriminate].
    destruct (subsequent_frame lstsq mask lf rf)
      as [[[[d' o'] lf'] rf'] | e]; [| discriminate].
    intros H. injection H as _ _ H.
    bind_inv H. bind_inv H. injection H as <- <- <- <-.
    unfold fitx in E, E0. repeat bind_inv E. repeat bind_inv E0.
    injection E as <-. injection E0 as <-.
    rewrite !length_map. repeat split.
Qed.

(** ** Masks whose three channels are equal *)

Lemma three_alike_eq (px : list Z) :
  three_alike px = true -> px = triple (hd 0 px).
Proof.
  destruct px as [| a [| b [| c [| d px]]]]; simpl; try discriminate.
  rewrite andb_true_iff, !Z.eqb_eq. intros [-> ->]. reflexivity.
Qed.

Lemma nonzero_row_triple (y : Z) (row : list (list Z)) (k : nat) :
  forallb three_alike row = true ->
  flat_map (fun '(x, px) =>
              flat_map (fun v : Z => if v =? 0 then [] else [(y, x)]) px)
           (combine (map Z.of_nat (seq k (length row))) row)
  = flat_map triple
      (flat_map (fun '(x, v) => if v =? 0 then [] else [(y, x)])
         (combine (map Z.of_nat (seq k (length (map (fun px => hd 0 px) row))))
                  (map (fun px => hd 0 px) row))).
Proof.
  revert k. induction row as [| px row IH]; intros k H; [reflexivity |].
  simpl in H. apply andb_true_iff in H. destruct H as [Hpx Hrow].
  cbn [length map seq combine flat_map]. rewrite flat_map_app.
  rewrite <- (IH (S k) Hrow). f_equal.
  rewrite (three_alike_eq px Hpx) at 1. cbn [triple flat_map hd].
  destruct (hd 0 px =? 0); reflexivity.
Qed.

Lemma nonzero_rows_triple (rows : list (list (list Z))) (k : nat) :
  forallb (forallb three_alike) rows = true ->
  flat_map (fun '(y, row) =>
              flat_map (fun '(x, px) =>
                flat_map (fun v : Z => if v =? 0 then [] else [(y, x)]) px)
                (Np.enumerate row))
           (combine (map Z.of_nat (seq k (length rows))) rows)
  = flat_map triple
      (flat_map (fun '(y, row) =>
                   flat_map (fun '(x, v) => if v =? 0 then [] else [(y, x)])
                     (Np.enumerate row))
         (combine (map Z.of_nat
                     (seq k (length (map (map (fun px => hd 0 px)) rows))))
                  (map (map (fun px => hd 0 px)) rows))).
Proof.
  revert k. induction rows as [| row rows IH]; intros k H; [reflexivity |].
  simpl in H. apply andb_true_iff in H. destruct H as [Hrow Hrows].
  cbn [length map seq combine flat_map]. rewrite flat_map_app.
  rewrite <- (IH (S k) Hrows). f_equal.
  unfold Np.enumerate. apply nonzero_row_triple. exact Hrow.
Qed.

(** A mask whose three channels are equal has three nonzero entries for
    each nonzero pixel of its first channel, one after the other. *)
Lemma nonzero_triples (m : Np.ndarray) :
  channel_identical m = true ->
  Np.nonzero m = flat_map triple (Np.nonzero (Np.Arr2 (single_plane m))).
Proof.
  destruct m as [rows | rows]; simpl; [discriminate |]. intros H.
  unfold Np.enumerate at 1 3. apply nonzero_rows_triple. exact H.
Qed.

Lemma triple_length {A : Type} (l : list A) :
  length (flat_map triple l) = (3 * length l)%nat.
Proof. induction l as [| p l IH]; simpl; [reflexivity | rewrite IH; lia]. Qed.

Lemma triple_In {A : Type} (l : list A) (p : A) :
  In p (flat_map triple l) <-> In p l.
Proof.
  rewrite in_flat_map. split.
  - intros [q [Hq Hp]]. simpl in Hp. intuition congruence.
  - intros Hp. exists p. split; [exact Hp | left; reflexivity].
Qed.

(** X5: [nonzero()] of a mask whose three channels are equal lists the
    nonzero pixels of the first channel, each three times: the positions
    are the same and the number of entries is three times the number of
    pixels. *)
Theorem nonzero_three_entries_per_pixel (m : Np.ndarray) :
  channel_identical m = true ->
  length (Np.nonzero m)
    = (3 * length (Np.nonzero (Np.Arr2 (single_plane m))))%nat
  /\ forall p, In p (Np.nonzero m)
                <-> In p (Np.nonzero (Np.Arr2 (single_plane m))).
Proof.
  intros H. rewrite (nonzero_triples m H). split.
  - apply triple_length.
  - intros p. apply triple_In.
Qed.

Lemma nonzero_three_entries_per_pixel_witness :
  length (Np.nonzero short_dash)
    = (3 * length (Np.nonzero (Np.Arr2 (single_plane short_dash))))%nat.
Proof.
  assert (H : channel_identical short_dash = true) by (vm_compute; reflexivity).
  exact (proj1 (nonzero_three_entries_per_pixel short_dash H)).
Defined.

Lemma compress_length {A : Type} (f : A -> bool) (g : A -> Z) (nz : list A) :
  length (Np.compress (map f nz) (map g nz)) = length (filter f nz).
Proof.
  induction nz as [| p nz IH]; simpl; [reflexivity |].
  destruct (f p); simpl; rewrite IH; reflexivity.
Qed.

Lemma filter_triple {A : Type} (f : A -> bool) (l : list A) :
  filter f (flat_map triple l) = flat_map triple (filter f l).
Proof.
  induction l as [| p l IH]; simpl; [reflexivity |].
  destruct (f p); simpl; rewrite IH; reflexivity.
Qed.

(** The four arrays of pixel coordinates the targeted search returns are
    selections of the mask's nonzero list by two tests. *)
Lemma subsequent_frame_search_shape (m : Np.ndarray) (lf rf : fit)
    (co : Z) (px : pixels) :
  subsequent_frame_search m lf rf = Ok (co, px) ->
  exists fl fr : Z * Z -> bool,
    leftx px = Np.compress (map fl (Np.nonzero m)) (map snd (Np.nonzero m))
    /\ lefty px = Np.compress (map fl (Np.nonzero m)) (map fst (Np.nonzero m))
    /\ rightx px = Np.compress (map fr (Np.nonzero m)) (map snd (Np.nonzero m))
    /\ righty px = Np.compress (map fr (Np.nonzero m)) (map fst (Np.nonzero m)).
Proof.
  unfold subsequent_frame_search. intros H.
  bind_inv H. bind_inv H. bind_inv H.
  bind_inv H. bind_inv H. bind_inv H. bind_inv H. bind_inv H. bind_inv H.
  apply ok_pair in H. destruct H as [_ <-].
  eexists; eexists. cbn [leftx lefty rightx righty]. repeat split.
Qed.

Section ChannelIdentical.

Variable lstsq : list Z -> list Z -> float64 * float64 * float64.

(** Fitted pixel sets whose sizes are multiples of three pass the validity
    test. *)
Lemma fit_lines_multiples_of_three (co : Z) (px : pixels) (nl nr : nat)
    (d : bool) (c : Z) (a b : fit) :
  length (leftx px) = (3 * nl)%nat ->
  length (lefty px) = (3 * nl)%nat ->
  length (rightx px) = (3 * nr)%nat ->
  length (righty px) = (3 * nr)%nat ->
  fit_lines lstsq co px = Ok (d, c, a, b) ->
  d = true.
Proof.
  intros Hlx Hly Hrx Hry H. unfold fit_lines in H. bind_inv H. bind_inv H.
  apply polyfit_ok in E, E0. destruct E as [El _], E0 as [Er _].
  injection H as <- _ _ _. unfold enough.
  assert (length (lefty px) <> 0)%nat
    by (destruct (lefty px); [contradiction | discriminate]).
  assert (length (righty px) <> 0)%nat
    by (destruct (righty px); [contradiction | discriminate]).
  apply andb_true_iff. split; apply Z.ltb_lt; lia.
Qed.

Lemma subsequent_frame_never_returns_false_aux (m : Np.ndarray) (lf rf : fit)
    (d : bool) (co : Z) (a b : fit) :
  channel_identical m = true ->
  subsequent_frame lstsq m lf rf = Ok (d, co, a, b) ->
  d = true.
Proof.
  intros Hm H. unfold subsequent_frame in H. bind_inv H.
  destruct v as [co' px]. cbn [fst snd] in H.
  apply subsequent_frame_search_shape in E.
  destruct E as [fl [fr [Hlx [Hly [Hrx Hry]]]]].
  rewrite (nonzero_triples m Hm) in Hlx, Hly, Hrx, Hry.
  apply (fit_lines_multiples_of_three co' px
           (length (filter fl (Np.nonzero (Np.Arr2 (single_plane m)))))
           (length (filter fr (Np.nonzero (Np.Arr2 (single_plane m)))))
           d co a b);
    try exact H;
    rewrite ?Hlx, ?Hly, ?Hrx, ?Hry, compress_length, filter_triple,
      triple_length; reflexivity.
Qed.

(** X6: on a mask whose three channels are equal, [subsequent_frame]
    never returns with the validity flag unset: a line without pixels
    makes it raise, and a line with a pixel has three entries. *)
Theorem subsequent_frame_never_returns_false (m : Np.ndarray) (lf rf : fit)
    (d : bool) (co : Z) (a b : fit) :
  channel_identical m = true ->
  subsequent_frame lstsq m lf rf = Ok (d, co, a, b) ->
  d = true.
Proof. apply subsequent_frame_never_returns_false_aux. Qed.

End ChannelIdentical.

Lemma subsequent_frame_never_returns_false_witness :
  channel_identical two_posts = true
  /\ subsequent_frame normal_equations_fit two_posts
       [0; 0; 0]%float [0; 0; 300]%float
     = Ok (true, -1, [0; 0; 0]%float, [0; 0; 300]%float)
  /\ true = true.
Proof.
  assert (H : subsequent_frame normal_equations_fit two_posts
                [0; 0; 0]%float [0; 0; 300]%float
              = Ok (true, -1, [0; 0; 0]%float, [0; 0; 300]%float))
    by (vm_compute; reflexivity).
  split; [reflexivity |]. split; [exact H |].
  exact (subsequent_frame_never_returns_false normal_equations_fit
           two_posts _ _ _ _ _ _ eq_refl H).
Defined.

(** ** C1 and C3: a tracking frame that loses a line *)

Section LostLine.

Variable lstsq : list Z -> list Z -> float64 * float64 * float64.

(** On a mask whose three channels are equal, pixels that fail the
    validity test leave a line without any entry. *)
Lemma failed_validation_is_an_empty_line (m : Np.ndarray) (lf rf : fit)
    (co : Z) (px : pixels) :
  channel_identical m = true ->
  subsequent_frame_search m lf rf = Ok (co, px) ->
  enough px = false ->
  lefty px = [] \/ righty px = [].
Proof.
  intros Hm Hs He.
  apply subsequent_frame_search_shape in Hs.
  destruct Hs as [fl [fr [Hlx [Hly [Hrx Hry]]]]].
  rewrite (nonzero_triples m Hm) in Hlx, Hly, Hrx, Hry.
  assert (Ll : length (leftx px) = length (lefty px)).
  { rewrite Hlx, Hly, !compress_length. reflexivity. }
  assert (Lr : length (rightx px) = length (righty px)).
  { rewrite Hrx, Hry, !compress_length. reflexivity. }
  assert (Tl : exists n, length (lefty px) = (3 * n)%nat).
  { eexists. rewrite Hly, compress_length, filter_triple, triple_length.
    reflexivity. }
  assert (Tr : exists n, length (righty px) = (3 * n)%nat).
  { eexists. rewrite Hry, compress_length, filter_triple, triple_length.
    reflexivity. }
  unfold enough in He. rewrite Ll, Lr in He.
  destruct Tl as [nl Tl], Tr as [nr Tr].
  apply andb_false_iff in He.
  destruct He as [He | He]; apply Z.ltb_ge in He; [left | right];
    apply length_zero_iff_nil; lia.
Qed.

(** A tracking frame that fails validation raises in the fit and leaves
    the globals as they were. *)
Lemma process_image_failed_validation (g : globals) (mask : Np.ndarray)
    (co : Z) (px : pixels) :
  channel_identical mask = true ->
  lanes_detected g = Some true ->
  subsequent_frame_search mask (left_fit g) (right_fit g) = Ok (co, px) ->
  enough px = false ->
  exists e, process_image lstsq g mask = (g, [TargetedSearch], Raise e).
Proof.
  intros Hm Hg Hs He.
  assert (Hr : exists e,
             subsequent_frame lstsq mask (left_fit g) (right_fit g) = Raise e).
  { unfold subsequent_frame. rewrite Hs. cbn [bind fst snd].
    apply fit_lines_raises.
    destruct (failed_validation_is_an_empty_line mask _ _ co px Hm Hs He)
      as [-> | ->]; [left | right]; intros [y [[] _]]. }
  destruct Hr as [e Hr]. exists e.
  unfold process_image. rewrite Hg. cbv beta iota. rewrite Hg, Hr.
  reflexivity.
Qed.

(** C3, on the code: a frame processed in the tracking state whose pixels
    fail the validity test (on a mask with three equal channels, as the
    pipeline makes them) does not take the tracker to searching with the
    fits cleared.  The failing line has no entry at all, [np.polyfit]
    raises on it, and the exception leaves [process_image]: no frame is
    returned, the flag is still [True] and both stored fits are the ones
    the frame started with. *)
Theorem C3_failed_validation_raises_and_keeps_fits (g : globals)
    (mask : Np.ndarray) (co : Z) (px : pixels) :
  channel_identical mask = true ->
  lanes_detected g = Some true ->
  subsequent_frame_search mask (left_fit g) (right_fit g) = Ok (co, px) ->
  enough px = false ->
  let k := process_image lstsq g mask in
  (exists e, snd k = Raise e)
  /\ lanes_detected (fst (fst k)) = Some true
  /\ left_fit (fst (fst k)) = left_fit g
  /\ right_fit (fst (fst k)) = right_fit g.
Proof.
  intros Hm Hg Hs He. cbv zeta.
  destruct (process_image_failed_validation g mask co px Hm Hg Hs He)
    as [e Hp].
  rewrite Hp. cbn [fst snd]. split; [exists e; reflexivity |].
  split; [exact Hg |]. split; reflexivity.
Qed.

(** C1, on the code.  The first half of the law holds: a frame that ends
    with the flag [True] is followed by a frame that runs the targeted
    search alone.  The second half does not: a frame processed in the
    tracking state whose pixels fail the validity test raises and leaves
    the globals untouched, so the frame after it, whatever its mask, runs
    the targeted search again, with the old fits, and no window search. *)
Theorem C1_window_search_does_not_follow_failed_tracking (g : globals)
    (mask next : Np.ndarray) (co : Z) (px : pixels) :
  channel_identical mask = true ->
  lanes_detected g = Some true ->
  subsequent_frame_search mask (left_fit g) (right_fit g) = Ok (co, px) ->
  enough px = false ->
  (forall (g0 : globals) (m0 : Np.ndarray),
     lanes_detected (fst (fst (process_image lstsq g0 m0))) = Some true ->
     snd (fst (process_image lstsq (fst (fst (process_image lstsq g0 m0)))
                 next))
     = [TargetedSearch])
  /\ (exists e, process_image lstsq g mask = (g, [TargetedSearch], Raise e))
  /\ snd (fst (process_image lstsq (fst (fst (process_image lstsq g mask)))
                 next))
     = [TargetedSearch].
Proof.
  intros Hm Hg Hs He.
  split; [| split].
  - intros g0 m0 H. apply process_image_tracking_log. exact H.
  - apply (process_image_failed_validation g mask co px Hm Hg Hs He).
  - destruct (process_image_failed_validation g mask co px Hm Hg Hs He)
      as [e Hp].
    rewrite Hp. cbn [fst]. apply process_image_tracking_log. exact Hg.
Qed.

End LostLine.

Lemma C3_failed_validation_raises_and_keeps_fits_witness :
  exists co px,
    subsequent_frame_search left_line_only (left_fit tracking_globals)
      (right_fit tracking_globals) = Ok (co, px)
    /\ length (leftx px) = 9%nat
    /\ rightx px = []
    /\ enough px = false
    /\ (let k := process_image normal_equations_fit tracking_globals
                   left_line_only in
        (exists e, snd k = Raise e)
        /\ lanes_detected (fst (fst k)) = Some true
        /\ left_fit (fst (fst k)) = [0; 0; 0]%float
        /\ right_fit (fst (fst k)) = [0; 0; 300]%float).
Proof.
  assert (Hs : exists co px,
             subsequent_frame_search left_line_only (left_fit tracking_globals)
               (right_fit tracking_globals) = Ok (co, px)
             /\ length (leftx px) = 9%nat
             /\ rightx px = []
             /\ enough px = false).
  { eexists; eexists. split; [vm_compute; reflexivity |].
    split; [reflexivity |]. split; reflexivity. }
  destruct Hs as [co [px [Hs [Hn [Hr He]]]]].
  exists co, px. split; [exact Hs |]. split; [exact Hn |].
  split; [exact Hr |]. split; [exact He |].
  exact (C3_failed_validation_raises_and_keeps_fits normal_equations_fit
           tracking_globals left_line_only co px eq_refl eq_refl Hs He).
Defined.

Lemma C1_window_search_does_not_follow_failed_tracking_witness :
  exists co px,
    subsequent_frame_search (blank 3 302) (left_fit tracking_globals)
      (right_fit tracking_globals) = Ok (co, px)
    /\ enough px = false
    /\ process_image normal_equations_fit tracking_globals (blank 3 302)
       = (tracking_globals, [TargetedSearch], Raise TypeError)
    /\ snd (fst (process_image normal_equations_fit
                   (fst (fst (process_image normal_equations_fit
                                tracking_globals (blank 3 302))))
                   two_posts))
       = [TargetedSearch].
Proof.
  assert (Hs : exists co px,
             subsequent_frame_search (blank 3 302) (left_fit tracking_globals)
               (right_fit tracking_globals) = Ok (co, px)
             /\ enough px = false).
  { eexists; eexists. split; [vm_compute; reflexivity | reflexivity]. }
  destruct Hs as [co [px [Hs He]]].
  exists co, px. split; [exact Hs |]. split; [exact He |].
  split; [vm_compute; reflexivity |].
  exact (proj2 (proj2 (C1_window_search_does_not_follow_failed_tracking
                         normal_equations_fit tracking_globals (blank 3 302)
                         two_posts co px eq_refl eq_refl Hs He))).
Defined.

Lemma true_inds_from_length (b : list bool) (k : nat) :
  length (Np.true_inds_from k b) = length (filter (fun v => v) b).
Proof.
  revert k. induction b as [| v b IH]; intros k; [reflexivity |].
  destruct v; simpl; rewrite IH; reflexivity.
Qed.

Lemma filter_map_id {A : Type} (f : A -> bool) (l : list A) :
  length (filter (fun v => v) (map f l)) = length (filter f l).
Proof.
  induction l as [| p l IH]; simpl; [reflexivity |].
  destruct (f p); simpl; rewrite IH; reflexivity.
Qed.

Lemma good_inds_length (nz : list (Z * Z)) (y_low y_high x_low x_high : Z) :
  length (good_inds nz y_low y_high x_low x_high)
  = length (filter (in_window y_low y_high x_low x_high) nz).
Proof.
  unfold good_inds, Np.true_inds.
  rewrite true_inds_from_length. apply filter_map_id.
Qed.

(** Over a nonzero list of triples every band adds a multiple of three
    indices to each line. *)
Lemma window_loop_multiples_of_three (shape0 window_height : Z)
    (plane_nz : list (Z * Z)) (windows : list Z) (st : window_state) :
  (exists n, length (concat (left_lane_inds st)) = (3 * n)%nat) ->
  (exists n, length (concat (right_lane_inds st)) = (3 * n)%nat) ->
  let final :=
    fold_left (window_step shape0 window_height (flat_map triple plane_nz))
      windows st in
  (exists n, length (concat (left_lane_inds final)) = (3 * n)%nat)
  /\ (exists n, length (concat (right_lane_inds final)) = (3 * n)%nat).
Proof.
  revert st. induction windows as [| w ws IH]; intros st Hl Hr; simpl.
  - split; assumption.
  - apply IH; unfold window_step; cbn [left_lane_inds right_lane_inds];
      rewrite concat_app, length_app; cbn [concat]; rewrite app_nil_r,
        good_inds_length, filter_triple, triple_length.
    + destruct Hl as [n ->].
      match goal with |- exists _, (_ + 3 * ?k = _)%nat => exists (n + k)%nat end.
      lia.
    + destruct Hr as [n ->].
      match goal with |- exists _, (_ + 3 * ?k = _)%nat => exists (n + k)%nat end.
      lia.
Qed.

Lemma take_length (a : list Z) (inds : list nat) :
  length (Np.take a inds) = length inds.
Proof. unfold Np.take. apply length_map. Qed.

Section ChannelIdenticalStream.

Variable lstsq : list Z -> list Z -> float64 * float64 * float64.

Lemma sliding_window_valid (G m : Np.ndarray)
    (d : bool) (co : Z) (a b : fit) :
  channel_identical G = true ->
  sliding_window lstsq G m = Ok (d, co, a, b) ->
  d = true.
Proof.
  intros HG H. unfold sliding_window in H. bind_inv H.
  destruct v as [co' px]. cbn [fst snd] in H.
  unfold sliding_window_search in E. bind_inv E. bind_inv E. bind_inv E.
  match type of E with (if ?c then _ else _) = _ => destruct c end;
    [| discriminate].
  apply ok_pair in E. destruct E as [_ Epx].
  rewrite (nonzero_triples G HG) in Epx.
  match type of Epx with context [fold_left ?f ?ws ?st] =>
    destruct (window_loop_multiples_of_three (Np.shape0 m)
                (Z.quot (Np.shape0 G) nwindows)
                (Np.nonzero (Np.Arr2 (single_plane G))) ws st)
      as [[nl Hl] [nr Hr]];
      [exists 0%nat; reflexivity | exists 0%nat; reflexivity |]
  end.
  apply (fit_lines_multiples_of_three lstsq co' px nl nr d co a b);
    try exact H; subst px; cbn [leftx lefty rightx righty];
    rewrite take_length; assumption.
Qed.

(** X7: when the module-level array [warped_binary] has three equal
    channels, [sliding_window] never returns with the validity flag
    unset, whatever mask it is called on. *)
Theorem sliding_window_never_returns_false (G m : Np.ndarray)
    (d : bool) (co : Z) (a b : fit) :
  channel_identical G = true ->
  sliding_window lstsq G m = Ok (d, co, a, b) ->
  d = true.
Proof. apply sliding_window_valid. Qed.

(** A frame on a mask with three equal channels, with such a module-level
    array too, never leaves the flag [False] and never comes back without
    an overlay: it draws one or it raises. *)
Lemma process_image_channel_identical (g : globals) (mask : Np.ndarray) :
  channel_identical mask = true ->
  channel_identical (warped_binary g) = true ->
  lanes_detected g <> Some false ->
  lanes_detected (fst (fst (process_image lstsq g mask))) <> Some false
  /\ snd (process_image lstsq g mask) <> Ok Undistorted.
Proof.
  intros Hm HG Hg. unfold process_image.
  destruct (lanes_detected g) as [[|] |] eqn:Eg; [| contradiction |].
  - rewrite Eg.
    destruct (subsequent_frame lstsq mask (left_fit g) (right_fit g))
      as [[[[d o] lf] rf] | e] eqn:Et.
    + rewrite (subsequent_frame_never_returns_false_aux lstsq _ _ _ _ _ _ _ Hm Et).
      cbn [fst snd set_tracking lanes_detected]. split; [discriminate |].
      unfold subsequent_frame in Et. bind_inv Et. unfold fit_lines in Et.
      bind_inv Et. bind_inv Et. apply polyfit_ok in E0, E1.
      destruct E0 as [_ [x0 [x1 [x2 ->]]]], E1 as [_ [y0 [y1 [y2 ->]]]].
      injection Et as _ _ <- <-. discriminate.
    + cbn [fst snd]. rewrite Eg. split; discriminate.
  - destruct (sliding_window lstsq (warped_binary g) mask)
      as [[[[d o] lf] rf] | e] eqn:Es.
    + rewrite (sliding_window_valid _ _ _ _ _ _ HG Es).
      cbn [set_tracking lanes_detected left_fit right_fit].
      destruct (subsequent_frame lstsq mask lf rf)
        as [[[[d' o'] lf'] rf'] | e] eqn:Et.
      * rewrite (subsequent_frame_never_returns_false_aux lstsq _ _ _ _ _ _ _ Hm Et).
        cbn [fst snd set_tracking lanes_detected]. split; [discriminate |].
        unfold subsequent_frame in Et. bind_inv Et. unfold fit_lines in Et.
        bind_inv Et. bind_inv Et. apply polyfit_ok in E0, E1.
        destruct E0 as [_ [x0 [x1 [x2 ->]]]], E1 as [_ [y0 [y1 [y2 ->]]]].
        injection Et as _ _ <- <-. discriminate.
      * cbn [fst snd lanes_detected]. split; discriminate.
    + cbn [fst snd]. rewrite Eg. split; discriminate.
Qed.

End ChannelIdenticalStream.

Lemma sliding_window_never_returns_false_witness :
  channel_identical two_lines = true
  /\ sliding_window normal_equations_fit two_lines two_lines
     = Ok (true, -1, [0; 0; 3.5]%float, [0; 0; 3.5]%float)
  /\ true = true.
Proof.
  assert (H : sliding_window normal_equations_fit two_lines two_lines
              = Ok (true, -1, [0; 0; 3.5]%float, [0; 0; 3.5]%float))
    by (vm_compute; reflexivity).
  split; [reflexivity |]. split; [exact H |].
  exact (sliding_window_never_returns_false normal_equations_fit
           two_lines two_lines _ _ _ _ eq_refl H).
Defined.

Section Streams.

Variable lstsq : list Z -> list Z -> float64 * float64 * float64.

(** [process_image] never assigns the module-level array the window
    search scans. *)
Lemma process_image_keeps_warped_binary (g : globals) (mask : Np.ndarray) :
  warped_binary (fst (fst (process_image lstsq g mask))) = warped_binary g.
Proof.
  unfold process_image.
  destruct (lanes_detected g) as [[|] |] eqn:Eg.
  - cbv beta iota. rewrite Eg.
    destruct (subsequent_frame lstsq mask (left_fit g) (right_fit g))
      as [[[[d o] lf] rf] | e]; reflexivity.
  - cbv beta iota. rewrite Eg. reflexivity.
  - destruct (sliding_window lstsq (warped_binary g) mask)
      as [[[[d o] lf] rf] | e]; [| cbv beta iota; reflexivity].
    cbn [set_tracking lanes_detected left_fit right_fit].
    destruct d; [| reflexivity].
    destruct (subsequent_frame lstsq mask lf rf)
      as [[[[d' o'] lf'] rf'] | e]; reflexivity.
Qed.

(** A tracking frame on a mask with three equal channels keeps the flag
    [True], whether it returns or raises. *)
Lemma process_image_stays_tracking (g : globals) (mask : Np.ndarray) :
  channel_identical mask = true ->
  lanes_detected g = Some true ->
  lanes_detected (fst (fst (process_image lstsq g mask))) = Some true.
Proof.
  intros Hm Hg. unfold process_image. rewrite Hg. cbv beta iota. rewrite Hg.
  destruct (subsequent_frame lstsq mask (left_fit g) (right_fit g))
    as [[[[d o] lf] rf] | e] eqn:Et; [| exact Hg].
  rewrite (subsequent_frame_never_returns_false_aux lstsq _ _ _ _ _ _ _ Hm Et).
  reflexivity.
Qed.

(** X8: once a stream is tracking, frames whose masks have three equal
    channels never bring the window search back: every frame processed
    runs the targeted search alone and the flag is still [True] after the
    last one, also when that one raised. *)
Theorem tracking_stream_never_searches_again (masks : list Np.ndarray)
    (g : globals) :
  Forall (fun m => channel_identical m = true) masks ->
  lanes_detected g = Some true ->
  lanes_detected (fst (process_frames lstsq g masks)) = Some true
  /\ Forall (fun o => fst o = [TargetedSearch])
            (snd (process_frames lstsq g masks)).
Proof.
  intros Hm. revert g. induction Hm as [| m masks Hch _ IH]; intros g Hg.
  - split; [exact Hg | constructor].
  - cbn [process_frames].
    pose proof (process_image_stays_tracking g m Hch Hg) as Hflag.
    pose proof (process_image_tracking_log lstsq g m Hg) as Hlog.
    destruct (process_image lstsq g m) as [[g1 log] [out | e]];
      cbn [fst snd] in Hflag, Hlog.
    + destruct (IH g1 Hflag) as [Hf Hl].
      destruct (process_frames lstsq g1 masks) as [g2 outs].
      cbn [fst snd] in *. split; [exact Hf |].
      constructor; [exact Hlog | exact Hl].
    + cbn [fst snd]. split; [exact Hflag |].
      constructor; [exact Hlog | constructor].
Qed.

(** X9: on a stream whose masks, and the module-level array the window
    search scans, all have three equal channels, no frame is ever handed
    back without an overlay and the flag is never left [False]: a frame
    that does not find both lines raises. *)
Theorem stream_draws_or_raises (masks : list Np.ndarray) (g : globals) :
  Forall (fun m => channel_identical m = true) masks ->
  channel_identical (warped_binary g) = true ->
  lanes_detected g <> Some false ->
  lanes_detected (fst (process_frames lstsq g masks)) <> Some false
  /\ Forall (fun o => snd o <> Ok Undistorted)
            (snd (process_frames lstsq g masks)).
Proof.
  intros Hm. revert g. induction Hm as [| m masks Hch _ IH]; intros g HG Hg.
  - split; [exact Hg | constructor].
  - cbn [process_frames].
    destruct (process_image_channel_identical lstsq g m Hch HG Hg)
      as [Hflag Hout].
    pose proof (process_image_keeps_warped_binary g m) as Hw.
    destruct (process_image lstsq g m) as [[g1 log] [out | e]];
      cbn [fst snd] in Hflag, Hout, Hw.
    + rewrite <- Hw in HG. destruct (IH g1 HG Hflag) as [Hf Hl].
      destruct (process_frames lstsq g1 masks) as [g2 outs].
      cbn [fst snd] in *. split; [exact Hf |].
      constructor; [exact Hout | exact Hl].
    + cbn [fst snd]. split; [exact Hflag |].
      constructor; [discriminate | constructor].
Qed.

End Streams.

Lemma tracking_stream_never_searches_again_witness :
  lanes_detected (fst (process_frames normal_equations_fit tracking_globals
                         [two_dots; blank 1 302])) = Some true
  /\ Forall (fun o => fst o = [TargetedSearch])
            (snd (process_frames normal_equations_fit tracking_globals
                    [two_dots; blank 1 302])).
Proof.
  apply (tracking_stream_never_searches_again normal_equations_fit
           [two_dots; blank 1 302] tracking_globals).
  - repeat constructor.
  - reflexivity.
Defined.

Lemma stream_draws_or_raises_witness :
  lanes_detected (fst (process_frames normal_equations_fit
                         (initial_globals two_lines) [two_lines; two_lines]))
    <> Some false
  /\ Forall (fun o => snd o <> Ok Undistorted)
            (snd (process_frames normal_equations_fit
                    (initial_globals two_lines) [two_lines; two_lines])).
Proof.
  apply (stream_draws_or_raises normal_equations_fit
           [two_lines; two_lines] (initial_globals two_lines)).
  - repeat constructor.
  - reflexivity.
  - discriminate.
Defined.

(** ** The centre offset is bounded *)

Lemma argmax_from_bound (t : list Z) (best : Z) (besti i : nat) :
  (besti < i)%nat -> (Np.argmax_from best besti i t < i + length t)%nat.
Proof.
  revert best besti i. induction t as [| v t IH]; intros best besti i H; simpl.
  - lia.
  - destruct (best <? v).
    + specialize (IH v i (S i) ltac:(lia)). lia.
    + specialize (IH best besti (S i) ltac:(lia)). lia.
Qed.

Lemma argmax_bound (l : list Z) (v : Z) :
  Np.argmax l = Ok v -> 0 <= v < Z.of_nat (length l).
Proof.
  destruct l as [| a t]; simpl; intros H; [discriminate |].
  injection H as <-.
  pose proof (argmax_from_bound t a 0 1 ltac:(lia)). lia.
Qed.

Lemma spec_center_offset_bounds (plane : list (list Z)) (co : Z) :
  spec_center_offset plane = Ok co ->
  let w := Z.of_nat (length (hd [] plane)) in
  - (w / 2 + 1) <= 2 * co <= w - w / 2 - 2.
Proof.
  unfold spec_center_offset. cbv zeta. intros H.
  bind_inv H. bind_inv H. injection H as <-.
  apply argmax_bound in E, E0.
  rewrite length_firstn, length_map, length_seq in E.
  rewrite length_skipn, length_map, length_seq in E0.
  change (fst (Nat.divmod (length (hd [] plane)) 1 0 1))
    with (length (hd [] plane) / 2)%nat.
  set (n := length (hd [] plane)) in *.
  assert (Hd : Z.of_nat (n / 2) = Z.of_nat n / 2) by apply Nat2Z.inj_div.
  assert (Hle : (n / 2 <= n)%nat) by (apply Nat.Div0.div_le_upper_bound; lia).
  rewrite Nat2Z.inj_min in E. rewrite Nat2Z.inj_sub in E0 by exact Hle.
  assert (Hn : 0 <= Z.of_nat n) by lia.
  revert E E0 Hd Hn. generalize (Z.of_nat (n / 2)), (Z.of_nat n).
  intros half w E E0 Hd Hn. clear - E E0 Hd Hn. subst half.
  pose proof (Z.div_mod (v + (v0 + w / 2)) 2 ltac:(lia)) as Hq.
  pose proof (Z.mod_pos_bound (v + (v0 + w / 2)) 2 ltac:(lia)) as Hr.
  lia.
Qed.

Lemma plane_width (m : Np.ndarray) :
  Z.of_nat (length (hd [] (single_plane m))) = Np.shape1 m.
Proof.
  destruct m as [rows | rows]; simpl; [reflexivity |].
  destruct rows as [| row rows]; simpl; [reflexivity |].
  rewrite length_map. reflexivity.
Qed.

(** X10: the centre offset either search returns for a mask of width W
    lies within a quarter of the width of the image centre:
    -(W/2 + 1) <= 2 * offset <= W - W/2 - 2, because the left base is a
    column of the left half and the right base one of the right half. *)
Theorem center_offset_within_quarter_width
    (lstsq : list Z -> list Z -> float64 * float64 * float64) (G m : Np.ndarray) (lf rf : fit)
    (d : bool) (co : Z) (a b : fit) :
  subsequent_frame lstsq m lf rf = Ok (d, co, a, b)
  \/ sliding_window lstsq G m = Ok (d, co, a, b) ->
  - (Np.shape1 m / 2 + 1) <= 2 * co <= Np.shape1 m - Np.shape1 m / 2 - 2.
Proof.
  intros H. rewrite <- plane_width. apply spec_center_offset_bounds.
  destruct H as [H | H].
  - unfold subsequent_frame in H. bind_inv H. destruct v as [co' px].
    apply fit_lines_offset in H. destruct H as [-> _].
    apply (subsequent_frame_search_offset m lf rf co' px E).
  - unfold sliding_window in H. bind_inv H. destruct v as [co' px].
    apply fit_lines_offset in H. destruct H as [-> _].
    apply (sliding_window_search_offset G m co' px E).
Qed.

Lemma center_offset_within_quarter_width_witness :
  - (Np.shape1 two_posts / 2 + 1) <= 2 * (-1)
    <= Np.shape1 two_posts - Np.shape1 two_posts / 2 - 2.
Proof.
  apply (center_offset_within_quarter_width normal_equations_fit two_posts
           two_posts [0; 0; 0]%float [0; 0; 300]%float
           true (-1) [0; 0; 0]%float [0; 0; 300]%float).
  left. vm_compute. reflexivity.
Defined.

(** ** How far a window moves *)

Lemma sum_bounds (l : list Z) (lo hi : Z) :
  Forall (fun x => lo <= x <= hi) l ->
  Z.of_nat (length l) * lo <= Np.sum l <= Z.of_nat (length l) * hi.
Proof.
  induction 1 as [| x l Hx _ IH]; [simpl; lia |].
  cbn [Np.sum fold_right length]. fold (Np.sum l).
  rewrite Nat2Z.inj_succ. lia.
Qed.

(** The truncated mean of a non-empty array lies between any two integers
    that bound its elements. *)
Lemma mean_int_bounds (l : list Z) (lo hi : Z) :
  l <> [] ->
  Forall (fun x => lo <= x <= hi) l ->
  lo <= Np.mean_int l <= hi.
Proof.
  intros Hne Hall. pose proof (sum_bounds l lo hi Hall) as Hs.
  unfold Np.mean_int.
  assert (Hn : 0 < Z.of_nat (length l)).
  { destruct l; [contradiction | simpl; lia]. }
  revert Hs Hn. generalize (Np.sum l), (Z.of_nat (length l)).
  intros s n Hs Hn.
  pose proof (Z.quot_rem' s n) as Hq.
  destruct (Z_le_gt_dec 0 s) as [Hpos | Hneg].
  - pose proof (Z.rem_bound_pos s n Hpos Hn) as Hr. split.
    + apply Z.lt_succ_r, (Z.mul_lt_mono_pos_l n); lia.
    + apply (Z.mul_le_mono_pos_l _ _ n); lia.
  - pose proof (Z.rem_bound_pos_neg s n Hn ltac:(lia)) as Hr. split.
    + apply (Z.mul_le_mono_pos_l _ _ n); lia.
    + apply Z.lt_succ_r, (Z.mul_lt_mono_pos_l n); lia.
Qed.

Lemma take_window_bounds (nz : list (Z * Z)) (y_low y_high x_low x_high : Z) :
  Forall (fun x => x_low <= x <= x_high - 1)
         (Np.take (map snd nz) (good_inds nz y_low y_high x_low x_high)).
Proof.
  apply Forall_forall. intros x Hx. unfold Np.take in Hx.
  apply in_map_iff in Hx. destruct Hx as [i [<- Hi]].
  apply good_inds_spec in Hi. destruct Hi as [y [x [E [_ Hx]]]].
  change 0 with (snd (0, 0)). rewrite map_nth.
  rewrite (nth_error_nth nz i (0, 0) E). simpl. lia.
Qed.

(** X12: from one band to the next a window centre moves by at most the
    margin: the new centre of either line is one of the columns its
    window covered, c - margin <= c' <= c + margin - 1. *)
Theorem window_centre_moves_within_margin (shape0 window_height : Z)
    (nz : list (Z * Z)) (st : window_state) (window : Z) :
  let st' := window_step shape0 window_height nz st window in
  leftx_current st - margin <= leftx_current st' <= leftx_current st + margin - 1
  /\ rightx_current st - margin <= rightx_current st'
     <= rightx_current st + margin - 1.
Proof.
  cbv zeta. unfold window_step. cbv zeta.
  cbn [leftx_current rightx_current].
  split.
  - destruct (minpix <? Z.of_nat (length (good_inds nz _ _ _ _))) eqn:Hc;
      [| unfold margin; lia].
    apply mean_int_bounds; [| apply take_window_bounds].
    apply Z.ltb_lt in Hc. unfold minpix in Hc.
    intros Hnil. apply (f_equal (@length Z)) in Hnil.
    rewrite take_length in Hnil. simpl in Hnil. lia.
  - destruct (minpix <? Z.of_nat (length (good_inds nz _ _
                                            (rightx_current st - margin) _)))
      eqn:Hc; [| unfold margin; lia].
    apply mean_int_bounds; [| apply take_window_bounds].
    apply Z.ltb_lt in Hc. unfold minpix in Hc.
    intros Hnil. apply (f_equal (@length Z)) in Hnil.
    rewrite take_length in Hnil. simpl in Hnil. lia.
Qed.

(** ** What the window scan collects *)

Lemma true_inds_from_NoDup (b : list bool) (k : nat) :
  NoDup (Np.true_inds_from k b).
Proof.
  revert k. induction b as [| v b IH]; intros k; [constructor |].
  destruct v; simpl; [| apply IH].
  constructor; [| apply IH].
  intros Hin. apply true_inds_from_In in Hin. lia.
Qed.

(** One band added to what the bands below it collected: no index twice,
    and every row inside the bands scanned so far. *)
Lemma band_extends (shape0 window_height : Z) (nz : list (Z * Z))
    (k : nat) (x_low x_high : Z) (old : list nat) :
  0 <= window_height ->
  NoDup old ->
  Forall (fun i => exists y x, nth_error nz i = Some (y, x)
                     /\ shape0 - Z.of_nat k * window_height <= y < shape0) old ->
  let good := good_inds nz (shape0 - (Z.of_nat k + 1) * window_height)
                (shape0 - Z.of_nat k * window_height) x_low x_high in
  NoDup (old ++ good)
  /\ Forall (fun i => exists y x, nth_error nz i = Some (y, x)
                        /\ shape0 - Z.of_nat (S k) * window_height <= y < shape0)
            (old ++ good).
Proof.
  intros Hwh Hnd Hold. cbv zeta. split.
  - apply NoDup_app; [exact Hnd | apply true_inds_from_NoDup |].
    intros i Hi Hg. rewrite Forall_forall in Hold.
    destruct (Hold i Hi) as [y [x [E Hy]]].
    apply good_inds_spec in Hg. destruct Hg as [y' [x' [E' [Hy' _]]]].
    rewrite E in E'. injection E' as <- <-. lia.
  - apply Forall_app. split.
    + eapply Forall_impl; [| exact Hold].
      intros i [y [x [E Hy]]]. exists y, x. split; [exact E | nia].
    + apply Forall_forall. intros i Hg.
      apply good_inds_spec in Hg. destruct Hg as [y [x [E [Hy _]]]].
      exists y, x. split; [exact E | nia].
Qed.

Lemma window_scan_invariant (shape0 window_height : Z) (nz : list (Z * Z))
    (n k : nat) (st : window_state) :
  0 <= window_height ->
  NoDup (concat (left_lane_inds st)) ->
  Forall (fun i => exists y x, nth_error nz i = Some (y, x)
                     /\ shape0 - Z.of_nat k * window_height <= y < shape0)
         (concat (left_lane_inds st)) ->
  NoDup (concat (right_lane_inds st)) ->
  Forall (fun i => exists y x, nth_error nz i = Some (y, x)
                     /\ shape0 - Z.of_nat k * window_height <= y < shape0)
         (concat (right_lane_inds st)) ->
  let final :=
    fold_left (window_step shape0 window_height nz)
      (map Z.of_nat (seq k n)) st in
  (NoDup (concat (left_lane_inds final))
   /\ Forall (fun i => exists y x, nth_error nz i = Some (y, x)
                /\ shape0 - Z.of_nat (k + n) * window_height <= y < shape0)
             (concat (left_lane_inds final)))
  /\ (NoDup (concat (right_lane_inds final))
      /\ Forall (fun i => exists y x, nth_error nz i = Some (y, x)
                   /\ shape0 - Z.of_nat (k + n) * window_height <= y < shape0)
                (concat (right_lane_inds final))).
Proof.
  intros Hwh. revert k st.
  induction n as [| n IH]; intros k st Hln Hlf Hrn Hrf; cbn [seq map fold_left].
  - rewrite Nat.add_0_r. repeat split; assumption.
  - replace (k + S n)%nat with (S k + n)%nat by lia.
    destruct (band_extends shape0 window_height nz k
                (leftx_current st - margin) (leftx_current st + margin)
                _ Hwh Hln Hlf) as [Hl1 Hl2].
    destruct (band_extends shape0 window_height nz k
                (rightx_current st - margin) (rightx_current st + margin)
                _ Hwh Hrn Hrf) as [Hr1 Hr2].
    apply IH; unfold window_step; cbn [left_lane_inds right_lane_inds];
      rewrite concat_app; cbn [concat]; rewrite app_nil_r; assumption.
Qed.

Lemma take_nth_pairs (nz : list (Z * Z)) (inds : list nat) :
  combine (Np.take (map fst nz) inds) (Np.take (map snd nz) inds)
  = map (fun i => nth i nz (0, 0)) inds.
Proof.
  induction inds as [| i inds IH]; [reflexivity |].
  cbn [Np.take map combine]. fold (Np.take (map fst nz) inds).
  fold (Np.take (map snd nz) inds). rewrite IH. f_equal.
  change 0 with (fst (0, 0)) at 1. rewrite map_nth.
  change 0 with (snd (0, 0)) at 3. rewrite map_nth.
  symmetry. apply surjective_pairing.
Qed.

(** The indices behind the pixels the window search returns. *)
Lemma sliding_window_search_indices (G m : Np.ndarray) (co : Z) (px : pixels) :
  sliding_window_search G m = Ok (co, px) ->
  exists left_inds right_inds,
    (NoDup left_inds
     /\ Forall (fun i => exists y x, nth_error (Np.nonzero G) i = Some (y, x)
                  /\ Np.shape0 m - nwindows * Z.quot (Np.shape0 G) nwindows <= y
                     < Np.shape0 m) left_inds
     /\ leftx px = Np.take (map snd (Np.nonzero G)) left_inds
     /\ lefty px = Np.take (map fst (Np.nonzero G)) left_inds)
    /\ (NoDup right_inds
        /\ Forall (fun i => exists y x, nth_error (Np.nonzero G) i = Some (y, x)
                     /\ Np.shape0 m - nwindows * Z.quot (Np.shape0 G) nwindows <= y
                        < Np.shape0 m) right_inds
        /\ rightx px = Np.take (map snd (Np.nonzero G)) right_inds
        /\ righty px = Np.take (map fst (Np.nonzero G)) right_inds).
Proof.
  unfold sliding_window_search. intros H. bind_inv H. bind_inv H. bind_inv H.
  match type of H with (if ?c then _ else _) = _ => destruct c end;
    [| discriminate].
  apply ok_pair in H. destruct H as [_ <-].
  cbn [leftx lefty rightx righty].
  assert (Hwh : 0 <= Z.quot (Np.shape0 G) nwindows).
  { apply Z.quot_pos; [destruct G; simpl; lia | unfold nwindows; lia]. }
  match goal with |- context [fold_left ?f (range nwindows) ?st] =>
    pose proof (window_scan_invariant (Np.shape0 m)
                  (Z.quot (Np.shape0 G) nwindows) (Np.nonzero G) 9 0 st Hwh
                  (NoDup_nil _) (Forall_nil _) (NoDup_nil _) (Forall_nil _))
      as Hinv
  end.
  cbv zeta in Hinv. destruct Hinv as [[Hl1 Hl2] [Hr1 Hr2]].
  eexists; eexists. split; (split; [| split; [| split; reflexivity]]);
    assumption.
Qed.

(** X13: every pixel the window search attributes to a line lies in one
    of the nine bands: its row y satisfies
    shape0 - 9 * (H / 9) <= y < shape0, where shape0 is the height of the
    mask passed in and H the height of the module-level array; rows above
    the ninth band are never searched. *)
Theorem window_search_rows (G m : Np.ndarray) (co : Z) (px : pixels)
    (y x : Z) :
  sliding_window_search G m = Ok (co, px) ->
  In (y, x) (combine (lefty px) (leftx px))
  \/ In (y, x) (combine (righty px) (rightx px)) ->
  Np.shape0 m - nwindows * Z.quot (Np.shape0 G) nwindows <= y < Np.shape0 m.
Proof.
  intros H Hin. apply sliding_window_search_indices in H.
  destruct H as [li [ri [[_ [Hl [Elx Ely]]] [_ [Hr [Erx Ery]]]]]].
  rewrite Elx, Ely, Erx, Ery, !take_nth_pairs in Hin.
  rewrite Forall_forall in Hl, Hr.
  destruct Hin as [Hin | Hin]; apply in_map_iff in Hin;
    destruct Hin as [i [Ei Hi]].
  - destruct (Hl i Hi) as [y' [x' [E Hy]]].
    rewrite (nth_error_nth _ _ (0, 0) E) in Ei. injection Ei as <- <-. exact Hy.
  - destruct (Hr i Hi) as [y' [x' [E Hy]]].
    rewrite (nth_error_nth _ _ (0, 0) E) in Ei. injection Ei as <- <-. exact Hy.
Qed.

(** X14: the window search takes no nonzero entry twice for one line, the
    bands being disjoint: a line never has more entries than the
    module-level array has nonzero entries. *)
Theorem window_search_counts_each_entry_once (G m : Np.ndarray) (co : Z)
    (px : pixels) :
  sliding_window_search G m = Ok (co, px) ->
  (length (leftx px) <= length (Np.nonzero G))%nat
  /\ (length (rightx px) <= length (Np.nonzero G))%nat.
Proof.
  intros H. apply sliding_window_search_indices in H.
  destruct H as [li [ri [[Hln [Hl [Elx _]]] [Hrn [Hr [Erx _]]]]]].
  rewrite Elx, Erx, !take_length.
  assert (Hseq : forall inds,
            NoDup inds ->
            Forall (fun i => exists y x, nth_error (Np.nonzero G) i = Some (y, x)
                      /\ Np.shape0 m - nwindows * Z.quot (Np.shape0 G) nwindows <= y
                         < Np.shape0 m) inds ->
            (length inds <= length (Np.nonzero G))%nat).
  { intros inds Hnd Hall.
    rewrite <- (length_seq (length (Np.nonzero G)) 0).
    apply NoDup_incl_length; [exact Hnd |].
    intros i Hi. rewrite Forall_forall in Hall.
    destruct (Hall i Hi) as [y [x [E _]]].
    apply in_seq. split; [lia |]. simpl. apply nth_error_Some. congruence. }
  split; apply Hseq; assumption.
Qed.

Lemma window_search_rows_witness :
  exists px,
    sliding_window_search two_lines two_lines = Ok (-1, px)
    /\ In (8, 6) (combine (lefty px) (leftx px))
    /\ Np.shape0 two_lines - nwindows * Z.quot (Np.shape0 two_lines) nwindows
        <= 8 < Np.shape0 two_lines.
Proof.
  assert (Hs : exists px,
             sliding_window_search two_lines two_lines = Ok (-1, px)
             /\ In (8, 6) (combine (lefty px) (leftx px))).
  { eexists. split; [vm_compute; reflexivity |].
    cbn [lefty leftx combine]. do 3 right. left. reflexivity. }
  destruct Hs as [px [Hs Hin]].
  exists px. split; [exact Hs |]. split; [exact Hin |].
  exact (window_search_rows two_lines two_lines _ _ 8 6 Hs (or_introl Hin)).
Defined.

Lemma window_search_counts_each_entry_once_witness :
  exists px,
    sliding_window_search two_lines two_lines = Ok (-1, px)
    /\ (length (leftx px) <= length (Np.nonzero two_lines))%nat
    /\ (length (rightx px) <= length (Np.nonzero two_lines))%nat.
Proof.
  assert (Hs : exists px,
             sliding_window_search two_lines two_lines = Ok (-1, px)).
  { eexists. vm_compute. reflexivity. }
  destruct Hs as [px Hs].
  exists px. split; [exact Hs |].
  exact (window_search_counts_each_entry_once two_lines two_lines _ _ Hs).
Defined.

(** ** What the measurement reports *)

Section Reported.

Local Open Scope R_scope.

Variable lstsq : list R -> list R -> R * R * R.

Lemma floorR_bounds (r : R) :
  IZR (Geometry.floorR r) <= r < IZR (Geometry.floorR r) + 1.
Proof.
  unfold Geometry.floorR. rewrite minus_IZR.
  destruct (archimed r) as [H1 H2]. lra.
Qed.

Lemma round_half_even_near (r : R) :
  - (1 / 2) <= IZR (Geometry.round_half_even r) - r <= 1 / 2.
Proof.
  unfold Geometry.round_half_even.
  pose proof (floorR_bounds r) as [Hlo Hhi].
  destruct (Rlt_dec (r - IZR (Geometry.floorR r)) (1 / 2)) as [L | L].
  - lra.
  - destruct (Rlt_dec (1 / 2) (r - IZR (Geometry.floorR r))) as [U | U].
    + rewrite plus_IZR. lra.
    + destruct (Z.even (Geometry.floorR r)); rewrite ?plus_IZR; lra.
Qed.



Lemma calculate_curvature_inv (midoffset : Z) (leftx rightx ploty : list R)
    (position : R) (curvature : Geometry.float) :
  Geometry.calculate_curvature lstsq midoffset leftx rightx ploty
  = Ok (position, curvature) ->
  exists cl cr y,
    position = Geometry.round1 (100 * IZR midoffset * Geometry.xm_per_pix)
    /\ curvature
       = Geometry.fmap (fun s => 0.5 * s)
           (Geometry.fadd
              (Geometry.fmap Geometry.round1
                 (Geometry.fmap (fun r => r / 1000) (Geometry.curverad cr y)))
              (Geometry.fmap Geometry.round1
                 (Geometry.fmap (fun r => r / 1000) (Geometry.curverad cl y)))).
Proof.
  unfold Geometry.calculate_curvature. intros H.
  bind_inv H. bind_inv H. bind_inv H. bind_inv H. bind_inv H.
  injection H as <- <-. eauto.
Qed.


(** X16: the position [calculate_curvature] reports is a whole number of
    tenths of a centimetre, at most 0.05 cm away from the centre offset
    taken at 3.7 m per 700 pixels. *)
Theorem position_is_offset_in_centimetres (midoffset : Z)
    (leftx rightx ploty : list R) (position : R) (curvature : Geometry.float) :
  Geometry.calculate_curvature lstsq midoffset leftx rightx ploty
  = Ok (position, curvature) ->
  (exists k : Z, position = IZR k / 10)
  /\ Rabs (position - IZR midoffset * (370 / 700)) <= 1 / 20.
Proof.
  intros H. apply calculate_curvature_inv in H.
  destruct H as [cl [cr [y [-> _]]]].
  unfold Geometry.round1. split; [eexists; reflexivity |].
  pose proof (round_half_even_near
                (100 * IZR midoffset * Geometry.xm_per_pix * 10)) as Hn.
  unfold Geometry.xm_per_pix in *.
  apply Rabs_le. lra.
Qed.


Lemma not_all_zero_metres (ploty : list R) :
  (exists v, In v ploty /\ v <> 0) ->
  exists v, In v (map (fun y => y * Geometry.ym_per_pix) ploty) /\ v <> 0.
Proof.
  intros [v [Hin Hv]]. exists (v * Geometry.ym_per_pix). split.
  - apply (in_map (fun y => y * Geometry.ym_per_pix)). exact Hin.
  - unfold Geometry.ym_per_pix. nra.
Qed.

Lemma calculate_curvature_returns (midoffset : Z)
    (leftx rightx ploty : list R) :
  (exists v, In v ploty /\ v <> 0) ->
  length leftx = length ploty ->
  length rightx = length ploty ->
  exists position curvature,
    Geometry.calculate_curvature lstsq midoffset leftx rightx ploty
    = Ok (position, curvature).
Proof.
  intros Hp Hl Hr. unfold Geometry.calculate_curvature.
  rewrite !(polyfit_sample lstsq ploty) by (try exact Hp; congruence).
  cbn [bind].
  destruct ploty as [| y0 ys]; [destruct Hp as [? [[] _]] |].
  cbn [Geometry.amax bind].
  rewrite !(polyfit_sample lstsq (map _ (y0 :: ys)))
    by (try apply (not_all_zero_metres _ Hp); rewrite !length_map; congruence).
  cbn [bind]. eauto.
Qed.


End Reported.


Lemma position_is_offset_in_centimetres_witness :
  exists position curvature,
    Geometry.calculate_curvature normal_equations 7
      (metric_parabola (1 / 2080)) (metric_parabola (1 / 2280))
      (map IZR (Np.linspace (Z.of_nat 3)))
    = Ok (position, curvature)
    /\ (exists k : Z, position = (IZR k / 10)%R)
    /\ (Rabs (position - IZR 7 * (370 / 700)) <= 1 / 20)%R.
Proof.
  pose proof (calculate_curvature_three_rows 7 (1 / 2080) (1 / 2280)) as H.
  cbv zeta in H.
  eexists. eexists. split; [exact H |].
  exact (position_is_offset_in_centimetres normal_equations _ _ _ _ _ _ H).
Defined.

(** ** From the frame to the printed measurement *)

(** The entries of [nonzero()] lie on the rows of the array. *)
Lemma nonzero_rows (m : Np.ndarray) (y x : Z) :
  In (y, x) (Np.nonzero m) -> 0 <= y < Np.shape0 m.
Proof.
  assert (Hy : forall (A : Type) (rows : list A) (y' : Z) (row : A),
             In (y', row) (Np.enumerate rows) ->
             0 <= y' < Z.of_nat (length rows)).
  { intros A rows y' row Hin. unfold Np.enumerate in Hin.
    apply in_combine_l in Hin. apply in_map_iff in Hin.
    destruct Hin as [k [<- Hk]]. apply in_seq in Hk. lia. }
  destruct m as [rows | rows]; cbn [Np.nonzero Np.shape0]; intros Hin;
    apply in_flat_map in Hin; destruct Hin as [[y' row] [Hrow Hin]];
    apply in_flat_map in Hin; destruct Hin as [[x' v] [_ Hin]].
  - destruct (v =? 0); [destruct Hin |].
    destruct Hin as [E | []]. injection E as <- _. apply (Hy _ _ _ _ Hrow).
  - apply in_flat_map in Hin. destruct Hin as [c [_ Hin]].
    destruct (c =? 0); [destruct Hin |].
    destruct Hin as [E | []]. injection E as <- _. apply (Hy _ _ _ _ Hrow).
Qed.

Section Measurement.

Variable lstsq : list Z -> list Z -> float64 * float64 * float64.
Variable lstsqR : list R -> list R -> R * R * R.

(** A mask on which the targeted search fits both lines has an entry off
    row 0, so at least two rows. *)
Lemma subsequent_frame_rows (mask : Np.ndarray) (lf rf : fit)
    (r : bool * Z * fit * fit) :
  subsequent_frame lstsq mask lf rf = Ok r ->
  2 <= Np.shape0 mask.
Proof.
  unfold subsequent_frame. intros H.
  apply bind_ok in H. destruct H as [[co px] [E H]].
  unfold fit_lines in H. bind_inv H. cbn [snd] in E0.
  apply polyfit_inv in E0. destruct E0 as [[y0 [Hin Hy]] _].
  apply subsequent_frame_search_shape in E.
  destruct E as [fl [_ [_ [Hly _]]]].
  rewrite Hly, compress_map in Hin. apply in_map_iff in Hin.
  destruct Hin as [[y x] [E Hin]]. cbn [fst] in E. subst y.
  apply filter_In in Hin. destruct Hin as [Hin _].
  apply nonzero_rows in Hin. lia.
Qed.

Lemma process_image_overlay_rows (g g' : globals) (mask : Np.ndarray)
    (log : list search) (o : frame_out) :
  process_image lstsq g mask = (g', log, Ok o) ->
  o <> Undistorted ->
  2 <= Np.shape0 mask.
Proof.
  unfold process_image.
  destruct (lanes_detected g) as [[|] |] eqn:Hg.
  - rewrite Hg.
    destruct (subsequent_frame lstsq mask (left_fit g) (right_fit g))
      as [r | e] eqn:Et.
    + intros _ _. exact (subsequent_frame_rows _ _ _ _ Et).
    + discriminate.
  - rewrite Hg. intros H. injection H as _ _ <-. congruence.
  - destruct (sliding_window lstsq (warped_binary g) mask)
      as [[[[d o'] lf] rf] | e]; [| discriminate].
    cbn [set_tracking lanes_detected left_fit right_fit].
    destruct d.
    + destruct (subsequent_frame lstsq mask lf rf) as [r | e] eqn:Et.
      * intros _ _. exact (subsequent_frame_rows _ _ _ _ Et).
      * discriminate.
    + intros H. injection H as _ _ <-. congruence.
Qed.

(** X18: whenever [process_image] returns a frame with the overlay, the
    call of [calculate_curvature] that prints on it returns a position and
    a curvature: the fitted columns and the rows have one length, and a
    mask on which the targeted search fitted both lines has an entry off
    row 0, hence a row that is not zero. *)
Theorem overlay_measurement_returns (g g' : globals) (mask : Np.ndarray)
    (log : list search) (off : Z) (left_fitx right_fitx : list float64)
    (ploty : list Z) :
  process_image lstsq g mask
    = (g', log, Ok (Overlay off left_fitx right_fitx ploty)) ->
  exists position curvature,
    Geometry.frame_geometry lstsqR (Overlay off left_fitx right_fitx ploty)
    = Some (Ok (position, curvature)).
Proof.
  intros H.
  destruct (overlay_rows lstsq g g' mask log off left_fitx right_fitx ploty H)
    as [Hp [Hl Hr]].
  assert (Hrows : 2 <= Np.shape0 mask).
  { apply (process_image_overlay_rows g g' mask log _ H). discriminate. }
  cbn [Geometry.frame_geometry].
  destruct (calculate_curvature_returns lstsqR off (map F2R left_fitx)
              (map F2R right_fitx) (map IZR ploty)) as [p [c E]].
  - subst ploty. exists (IZR (Z.of_nat 1)). split; [| simpl; lra].
    apply in_map. unfold Np.linspace. apply in_map. apply in_seq. lia.
  - rewrite !length_map. exact Hl.
  - rewrite !length_map. exact Hr.
  - exists p, c. rewrite E. reflexivity.
Qed.

End Measurement.

Lemma overlay_measurement_returns_witness :
  exists g' log off left_fitx right_fitx ploty,
    process_image normal_equations_fit (initial_globals two_lines) two_lines
      = (g', log, Ok (Overlay off left_fitx right_fitx ploty))
    /\ exists position curvature,
         Geometry.frame_geometry normal_equations
           (Overlay off left_fitx right_fitx ploty)
         = Some (Ok (position, curvature)).
Proof.
  assert (H : exists g' log off left_fitx right_fitx ploty,
             process_image normal_equations_fit (initial_globals two_lines)
               two_lines
             = (g', log, Ok (Overlay off left_fitx right_fitx ploty))).
  { do 6 eexists. vm_compute. reflexivity. }
  destruct H as [g' [log [off [lx [rx [ploty H]]]]]].
  exists g', log, off, lx, rx, ploty. split; [exact H |].
  exact (overlay_measurement_returns normal_equations_fit normal_equations
           _ _ _ _ _ _ _ _ H).
Defined.

(** ** Thresholding *)

Lemma Forall2_map_In {A B C : Type} (R : B -> C -> Prop) (f : A -> B)
    (g : A -> C) (l : list A) :
  (forall a, In a l -> R (f a) (g a)) -> Forall2 R (map f l) (map g l).
Proof.
  induction l as [| a l IH]; intros H; simpl; constructor.
  - apply H. left. reflexivity.
  - apply IH. intros b Hb. apply H. right. exact Hb.
Qed.

Lemma binary_px_cases (s_thresh sx_thresh l_thresh : Z * Z) (c : channels) :
  (binary_px s_thresh sx_thresh l_thresh c = 1
   /\ ((in_range l_thresh (l_channel c) = true
        /\ in_range s_thresh (s_channel c) = true)
       \/ in_range sx_thresh (scaled_sobel c) = true))
  \/ (binary_px s_thresh sx_thresh l_thresh c = 0
      /\ (in_range l_thresh (l_channel c) = false
          \/ in_range s_thresh (s_channel c) = false)
      /\ in_range sx_thresh (scaled_sobel c) = false).
Proof.
  unfold binary_px, l_binary, s_binary, sxbinary.
  destruct (in_range l_thresh (l_channel c)),
           (in_range s_thresh (s_channel c)),
           (in_range sx_thresh (scaled_sobel c)); simpl; auto 6.
Qed.

Lemma in_range_widen (t t' : Z * Z) (c : Z) :
  fst t' <= fst t -> snd t <= snd t' ->
  in_range t c = true -> in_range t' c = true.
Proof.
  unfold in_range. rewrite !andb_true_iff, !Z.leb_le. lia.
Qed.


Lemma binary_px_widen (s_thresh sx_thresh l_thresh s' sx' l' : Z * Z)
    (c : channels) :
  fst s' <= fst s_thresh -> snd s_thresh <= snd s' ->
  fst sx' <= fst sx_thresh -> snd sx_thresh <= snd sx' ->
  fst l' <= fst l_thresh -> snd l_thresh <= snd l' ->
  binary_px s_thresh sx_thresh l_thresh c <= binary_px s' sx' l' c.
Proof.
  intros Hs1 Hs2 Hx1 Hx2 Hl1 Hl2.
  destruct (binary_px_cases s_thresh sx_thresh l_thresh c)
    as [[-> H] | [-> _]];
    destruct (binary_px_cases s' sx' l' c) as [[-> _] | [-> [H1 H2]]];
    try lia.
  exfalso. destruct H as [[Hl Hs] | Hx].
  - apply (in_range_widen _ l' _ Hl1 Hl2) in Hl.
    apply (in_range_widen _ s' _ Hs1 Hs2) in Hs.
    destruct H1; congruence.
  - apply (in_range_widen _ sx' _ Hx1 Hx2) in Hx. congruence.
Qed.

(** X20: widening the three threshold intervals of [pipeline] never
    removes a pixel from the binary image. *)
Theorem pipeline_wider_thresholds_keep_pixels
    (s_thresh sx_thresh l_thresh s' sx' l' : Z * Z)
    (img : list (list channels)) :
  fst s' <= fst s_thresh -> snd s_thresh <= snd s' ->
  fst sx' <= fst sx_thresh -> snd sx_thresh <= snd sx' ->
  fst l' <= fst l_thresh -> snd l_thresh <= snd l' ->
  Forall2 (Forall2 Z.le)
    (snd (pipeline s_thresh sx_thresh l_thresh img))
    (snd (pipeline s' sx' l' img)).
Proof.
  intros Hs1 Hs2 Hx1 Hx2 Hl1 Hl2. unfold pipeline. cbn [snd].
  apply Forall2_map_In. intros row _.
  apply Forall2_map_In. intros c _.
  apply binary_px_widen; assumption.
Qed.

Lemma pipeline_wider_thresholds_keep_pixels_witness :
  Forall2 (Forall2 Z.le)
    (snd (pipeline (120, 255) (25, 255) (40, 255) four_pixels))
    (snd (pipeline (110, 255) (20, 255) (40, 255) four_pixels)).
Proof.
  apply (pipeline_wider_thresholds_keep_pixels
           (120, 255) (25, 255) (40, 255) (110, 255) (20, 255) (40, 255));
    simpl; lia.
Defined.

Lemma nonzero_row_map (g : Z -> Z) (y : Z) (row : list Z) (k : nat) :
  (forall v, In v row -> (g v =? 0) = (v =? 0)) ->
  flat_map (fun '(x, v) => if v =? 0 then [] else [(y, x)])
    (combine (map Z.of_nat (seq k (length (map g row)))) (map g row))
  = flat_map (fun '(x, v) => if v =? 0 then [] else [(y, x)])
      (combine (map Z.of_nat (seq k (length row))) row).
Proof.
  revert k. induction row as [| v row IH]; intros k H; [reflexivity |].
  cbn [length map seq combine flat_map].
  rewrite (H v (or_introl eq_refl)). f_equal.
  apply IH. intros w Hw. apply H. right. exact Hw.
Qed.

Lemma nonzero_rows_map (g : Z -> Z) (rows : list (list Z)) (k : nat) :
  (forall row, In row rows -> forall v, In v row -> (g v =? 0) = (v =? 0)) ->
  flat_map (fun '(y, row) =>
              flat_map (fun '(x, v) => if v =? 0 then [] else [(y, x)])
                (Np.enumerate row))
    (combine (map Z.of_nat (seq k (length (map (map g) rows))))
             (map (map g) rows))
  = flat_map (fun '(y, row) =>
                flat_map (fun '(x, v) => if v =? 0 then [] else [(y, x)])
                  (Np.enumerate row))
      (combine (map Z.of_nat (seq k (length rows))) rows).
Proof.
  revert k. induction rows as [| row rows IH]; intros k H; [reflexivity |].
  cbn [length map seq combine flat_map]. f_equal.
  - unfold Np.enumerate. apply nonzero_row_map.
    apply H. left. reflexivity.
  - apply IH. intros r Hr. apply H. right. exact Hr.
Qed.

Lemma pipeline_binary_values (s_thresh sx_thresh l_thresh : Z * Z)
    (img : list (list channels)) (row : list Z) (v : Z) :
  In row (snd (pipeline s_thresh sx_thresh l_thresh img)) ->
  In v row -> v = 0 \/ v = 1.
Proof.
  unfold pipeline. cbn [snd]. intros Hrow Hv.
  apply in_map_iff in Hrow. destruct Hrow as [r [<- _]].
  apply in_map_iff in Hv. destruct Hv as [c [<- _]].
  destruct (binary_px_cases s_thresh sx_thresh l_thresh c)
    as [[-> _] | [-> _]]; auto.
Qed.

(** X21: the mask [undist_pipeline_warp] builds from [pipeline]'s binary
    image, before warping: its three channels are equal, every value is 0
    or 255 (the product by 255 never leaves uint8), and its [nonzero()]
    lists each pixel of the binary image three times. *)
Theorem mask_of_pipeline (s_thresh sx_thresh l_thresh : Z * Z)
    (img : list (list channels)) :
  let binary := snd (pipeline s_thresh sx_thresh l_thresh img) in
  channel_identical (combined_binary binary) = true
  /\ single_plane (combined_binary binary)
     = map (map (fun v => 255 * v)) binary
  /\ Np.nonzero (combined_binary binary)
     = flat_map triple (Np.nonzero (Np.Arr2 binary)).
Proof.
  cbv zeta.
  set (binary := snd (pipeline s_thresh sx_thresh l_thresh img)).
  assert (Hv : forall row, In row binary -> forall v, In v row ->
                 v = 0 \/ v = 1).
  { intros row Hrow v. apply (pipeline_binary_values _ _ _ img row v Hrow). }
  assert (Hc : channel_identical (combined_binary binary) = true).
  { unfold combined_binary, channel_identical.
    apply forallb_forall. intros row Hrow.
    apply in_map_iff in Hrow. destruct Hrow as [r [<- _]].
    apply forallb_forall. intros px Hpx.
    apply in_map_iff in Hpx. destruct Hpx as [v [<- _]].
    cbv zeta. unfold three_alike. rewrite Z.eqb_refl. reflexivity. }
  assert (Hp : single_plane (combined_binary binary)
               = map (map (fun v => (255 * v) mod 256)) binary).
  { unfold combined_binary, single_plane. rewrite map_map.
    apply map_ext. intros row. rewrite map_map. reflexivity. }
  split; [exact Hc |]. split.
  - rewrite Hp. apply map_ext_in. intros row Hrow.
    apply map_ext_in. intros v Hin.
    destruct (Hv row Hrow v Hin) as [-> | ->]; reflexivity.
  - rewrite (nonzero_triples _ Hc), Hp. f_equal.
    unfold Np.nonzero, Np.enumerate at 1 3. apply nonzero_rows_map.
    intros row Hrow v Hin.
    destruct (Hv row Hrow v Hin) as [-> | ->]; reflexivity.
Qed.

(** ** The polygon of the overlay *)

Lemma int_trunc (f : float64) (t : Z) :
  trunc f = Some t -> in_int64 t = true -> int_ f = t.
Proof. intros Ht Hr. unfold int_. rewrite Ht, Hr. reflexivity. Qed.

(** X2: [overlay_lane_lines] hands [cv2.fillPoly] a polygon exactly when
    the two fitted columns and the rows have one length n, and [np.vstack]
    raises [ValueError] otherwise.  The polygon has 2n vertices and goes
    round the lane: where the columns and the row are finite and, cut
    towards zero, fit int64, vertex k is the left line at row k, and vertex
    2n - 1 - k is the right line at the same row, so the right line is
    walked backwards. *)
Theorem lane_polygon_goes_round (left_fitx right_fitx yvals : list float64) :
  (length left_fitx = length yvals /\ length right_fitx = length yvals ->
   exists points,
     lane_polygon left_fitx right_fitx yvals = Ok points
     /\ length points = (2 * length yvals)%nat
     /\ forall (k : nat) (xl xr y : Z),
          (k < length yvals)%nat ->
          trunc (nth k left_fitx 0%float) = Some xl -> in_int64 xl = true ->
          trunc (nth k right_fitx 0%float) = Some xr -> in_int64 xr = true ->
          trunc (nth k yvals 0%float) = Some y -> in_int64 y = true ->
          nth k points (0, 0) = (xl, y)
          /\ nth (2 * length yvals - 1 - k) points (0, 0) = (xr, y))
  /\ (length left_fitx <> length yvals \/ length right_fitx <> length yvals ->
      lane_polygon left_fitx right_fitx yvals = Raise ValueError).
Proof.
  unfold lane_polygon. split.
  - intros [Hl Hr]. rewrite Hl, Hr, !Nat.eqb_refl.
    eexists. split; [reflexivity |].
    assert (Ll : length (combine (map int_ left_fitx) (map int_ yvals))
                 = length yvals).
    { rewrite length_combine, !length_map, Hl. apply Nat.min_id. }
    assert (Lr : length (combine (map int_ right_fitx) (map int_ yvals))
                 = length yvals).
    { rewrite length_combine, !length_map, Hr. apply Nat.min_id. }
    assert (Hz : int_ 0%float = 0) by reflexivity.
    split.
    + rewrite length_app, length_rev, Ll, Lr. lia.
    + intros k xl xr y Hk Tl Rl Tr Rr Ty Ry.
      apply int_trunc in Tl, Tr, Ty; try assumption. split.
      * rewrite app_nth1 by lia.
        rewrite combine_nth by (rewrite !length_map; exact Hl).
        rewrite <- Hz, !map_nth, Tl, Ty. reflexivity.
      * rewrite app_nth2 by lia. rewrite Ll.
        rewrite rev_nth by lia. rewrite Lr.
        replace (length yvals - S (2 * length yvals - 1 - k - length yvals))%nat
          with k by lia.
        rewrite combine_nth by (rewrite !length_map; exact Hr).
        rewrite <- Hz, !map_nth, Tr, Ty. reflexivity.
  - intros H.
    destruct (Nat.eqb (length left_fitx) (length yvals)) eqn:El;
      [| reflexivity].
    destruct (Nat.eqb (length right_fitx) (length yvals)) eqn:Er;
      [| reflexivity].
    apply Nat.eqb_eq in El, Er. destruct H; contradiction.
Qed.

(** Two rows: the columns are cut towards zero, also when negative, and
    the right line comes back up. *)
Lemma lane_polygon_sample :
  lane_polygon [-1.5; 2.5]%float [7.75; 8.25]%float [0; 1]%float
  = Ok [(-1, 0); (2, 1); (8, 1); (7, 0)].
Proof. vm_compute. reflexivity. Qed.
